(** * The headers middleware of traefik: CORS and custom headers

    A shallow embedding of [middlewares/headers/headers.go] and of the
    response modifier [buildHeaders], and the properties of the header
    rewriting they perform.

    Conventions.
    - Go strings are [string]; a [map[string]string] is a [gmap string string];
      [http.Header] ([map[string][]string]) is a [gmap string (list string)].
    - A method with a pointer receiver that writes a field takes the receiver
      and returns it updated.
    - Go does not fix the order in which [range] visits a map, and the order
      may differ from one loop to the next.  A function that ranges over a map
      takes the visiting order of that execution as an argument [ord];
      [range_order m ord] says that [ord] is an enumeration of [m]. *)

From Stdlib Require Import ZArith Ascii String List.
From stdpp Require Import base decidable option list strings gmap fin_maps pretty.

Local Open Scope string_scope.
Local Open Scope list_scope.

(** ** The parts of the Go standard library the package calls *)

Module textproto.

Definition isLower (c : ascii) : bool :=
  (97 <=? nat_of_ascii c)%nat && (nat_of_ascii c <=? 122)%nat.

Definition isUpper (c : ascii) : bool :=
  (65 <=? nat_of_ascii c)%nat && (nat_of_ascii c <=? 90)%nat.

Definition isDigit (c : ascii) : bool :=
  (48 <=? nat_of_ascii c)%nat && (nat_of_ascii c <=? 57)%nat.

(** [toLower] is the constant ['a' - 'A']. *)
Definition toLower : nat := 32.

(** The token bytes of RFC 7230: letters, digits and
    [!#$%&'*+-.^_`|~]. *)
Definition validHeaderFieldByte (c : ascii) : bool :=
  isLower c || isUpper c || isDigit c
  || existsb (Ascii.eqb c)
       (list_ascii_of_string "!#$%&'*+-.^_`|~").

(** The second loop of [canonicalMIMEHeaderKey]: upper case for the first
    letter and after each dash, lower case elsewhere. *)
Fixpoint canonicalize (upper : bool) (a : string) : string :=
  match a with
  | EmptyString => EmptyString
  | String c rest =>
      let c' :=
        if upper && isLower c then ascii_of_nat (nat_of_ascii c - toLower)
        else if negb upper && isUpper c then ascii_of_nat (nat_of_ascii c + toLower)
        else c in
      String c' (canonicalize (Ascii.eqb c' "-"%char) rest)
  end.

(** [CanonicalMIMEHeaderKey]: a key holding a byte that is not a token byte
    is returned unchanged. *)
Definition CanonicalMIMEHeaderKey (s : string) : string :=
  if forallb validHeaderFieldByte (list_ascii_of_string s)
  then canonicalize true s
  else s.

End textproto.

Module http.

Definition MethodOptions : string := "OPTIONS".

(** [http.Header]: canonical key to the values of that header, in the
    order of the header lines.  The map itself is never the nil map in the
    places modelled here: the server allocates it for every request and
    every response writer, and the transport for every response. *)
Abbreviation Header := (gmap string (list string)).

Definition Get (h : Header) (key : string) : string :=
  match h !! textproto.CanonicalMIMEHeaderKey key with
  | Some (v :: _) => v
  | _ => ""
  end.

Definition Set_ (h : Header) (key value : string) : Header :=
  <[textproto.CanonicalMIMEHeaderKey key := [value]]> h.

Definition Add (h : Header) (key value : string) : Header :=
  let key := textproto.CanonicalMIMEHeaderKey key in
  <[key := default [] (h !! key) ++ [value]]> h.

Definition Del (h : Header) (key : string) : Header :=
  delete (textproto.CanonicalMIMEHeaderKey key) h.

Record Request := mkRequest {
  Method : string;
  req_Header : Header;
}.

(** [http.Response]: the header collection and the request that was sent
    to obtain the response. *)
Record Response := mkResponse {
  res_Header : Header;
  res_Request : option Request;
}.

End http.

Module go.

(** [strings.Join]. *)
Fixpoint Join (elems : list string) (sep : string) : string :=
  match elems with
  | [] => ""
  | [e] => e
  | e :: rest => e +:+ sep +:+ Join rest sep
  end.

(** [strconv.Itoa]: base 10, a leading [-] for a negative number. *)
Definition Itoa (i : Z) : string := pretty i.

(** The conversion [int(x)] of an [int64]; [int] is 64 bits wide on the
    platforms the proxy is built for, so the wrap-around keeps every
    [int64] value. *)
Definition int (x : Z) : Z :=
  ((x + 2 ^ 63) `mod` 2 ^ 64 - 2 ^ 63)%Z.

(** A range loop over a [map[string]string] may visit the entries in any
    order. *)
Definition range_order (m : gmap string string) (ord : list (string * string)) : Prop :=
  ord ≡ₚ map_to_list m.

End go.

(** ** Package [headers] *)

Section headers.

(** [secure.Options], declared by the external package
    [github.com/unrolled/secure]. *)
Context {SecureOptions : Type}.

(** Handlers that are declared outside this package (the backend and the
    rest of the chain). *)
Context {Backend : Type}.

(** [config.Headers].  The twenty fields from [BrowserXSSFilter] to
    [STSSeconds], which [newSecure] and [buildHeaders] copy one by one
    into a [secure.Options], are kept together in [SecureFields]. *)
Record Headers := mkHeaders {
  CustomRequestHeaders : gmap string string;
  CustomResponseHeaders : gmap string string;
  AccessControlAllowCredentials : bool;
  AccessControlAllowHeaders : list string;
  AccessControlAllowMethods : list string;
  AccessControlAllowOrigin : string;
  AccessControlExposeHeaders : list string;
  AccessControlMaxAge : Z;
  AddVaryHeader : bool;
  SecureFields : SecureOptions;
}.

(** The three methods of [config.Headers] that tell which policies are
    configured; package [config] declares them. *)
Variable HasSecureHeadersDefined : Headers -> bool.
Variable HasCustomHeadersDefined : Headers -> bool.
Variable HasCorsHeadersDefined : Headers -> bool.

(** The struct [Header], over the type of the handlers it can point to. *)
Record Header_ (handler : Type) := mkHeader {
  next : option handler;
  headers : Headers;
  originHeader : string;
}.
Arguments mkHeader {handler} _ _ _.
Arguments next {handler} _.
Arguments headers {handler} _.
Arguments originHeader {handler} _.

(** The values an [http.Handler] takes in this package: a handler from
    outside, or a pointer to one of the structs [secureHeader], [Header]
    and [headers]; [None] stands for the nil interface value. *)
#[warnings="-register-all"] Inductive Handler : Type :=
| backendHandler (b : Backend)
| secureHeaderHandler (next : option Handler) (secure : SecureOptions)
| HeaderHandler (s : Header_ Handler)
| headersHandler (name : string) (handler : option Handler).

Definition Header : Type := Header_ Handler.

(** What a handler further down the chain does to the response writer;
    nothing in this package depends on it. *)
Variable serve : Handler -> http.Header -> http.Request -> http.Header.

Definition newSecure (next : option Handler) (headers : Headers) : Handler :=
  secureHeaderHandler next (SecureFields headers).

Definition NewHeader (next : option Handler) (headers : Headers) : Header :=
  mkHeader next headers "".

(** [New]; the context and the logger play no part in the result. *)
Definition New (next : option Handler) (config : Headers) (name : string)
  : string + Handler :=
  let hasSecureHeaders := HasSecureHeadersDefined config in
  let hasCustomHeaders := HasCustomHeadersDefined config in
  let hasCorsHeaders := HasCorsHeadersDefined config in
  if negb hasSecureHeaders && negb hasCustomHeaders && negb hasCorsHeaders
  then inl "headers configuration not valid"
  else
    let handler : option Handler := None in
    let nextHandler := next in
    let handler := if hasSecureHeaders then Some (newSecure next config) else handler in
    let nextHandler := if hasSecureHeaders then handler else nextHandler in
    let handler :=
      if hasCustomHeaders || hasCorsHeaders
      then Some (HeaderHandler (NewHeader nextHandler config))
      else handler in
    inr (headersHandler name handler).

Definition getAllowOrigin (s : Header) : string :=
  if decide (AccessControlAllowOrigin (headers s) = "origin-list-or-null") then
    if decide (originHeader s = "") then "null" else originHeader s
  else if decide (AccessControlAllowOrigin (headers s) = "*") then "*"
  else "".

(** The body of both custom-header loops: one visited entry. *)
Definition setOrDel (h : http.Header) (entry : string * string) : http.Header :=
  let '(header, value) := entry in
  if decide (value = "") then http.Del h header else http.Set_ h header value.

(** The loop of lines 165 to 171 and of lines 177 to 183, over the entries
    in the order [ord] in which the loop visits them. *)
Definition customHeaders (h : http.Header) (ord : list (string * string)) : http.Header :=
  foldl setOrDel h ord.

(** [modifyRequestHeaders]; [ord] is the order in which the loop visits
    [CustomRequestHeaders]. *)
Definition modifyRequestHeaders (s : Header) (ord : list (string * string))
    (req : http.Request) : http.Request :=
  http.mkRequest (http.Method req) (customHeaders (http.req_Header req) ord).

(** [ModifyResponseHeaders]; [ord] is the order in which the loop visits
    [CustomResponseHeaders].  The returned error is always nil. *)
Definition ModifyResponseHeaders (s : Header) (ord : list (string * string))
    (res : http.Response) : option string * http.Response :=
  let h := customHeaders (http.res_Header res) ord in
  let allowOrigin := getAllowOrigin s in
  let h :=
    if decide (allowOrigin <> "") then
      let h := http.Set_ h "Access-Control-Allow-Origin" allowOrigin in
      if AddVaryHeader (headers s) then
        let varyHeader := http.Get h "Vary" in
        let varyHeader :=
          if decide (varyHeader <> "") then varyHeader +:+ ",Origin" else "Origin" in
        http.Set_ h "Vary" varyHeader
      else h
    else h in
  let h :=
    if AccessControlAllowCredentials (headers s)
    then http.Set_ h "Access-Control-Allow-Credentials" "true"
    else h in
  let exposeHeaders := go.Join (AccessControlExposeHeaders (headers s)) "," in
  let h :=
    if decide (exposeHeaders <> "")
    then http.Set_ h "Access-Control-Expose-Headers" exposeHeaders
    else h in
  (None, http.mkResponse h (http.res_Request res)).


(** What [ServeHTTP] does that can be seen from outside: a header line added
    to the response writer, and a call of the next handler. *)
Inductive event : Type :=
| RwAdd (key value : string)
| NextServeHTTP (h : Handler) (req : http.Request).

(** The receiver, the header map of the response writer and the events, after
    a call. *)
Record outcome := mkOutcome {
  receiver : Header;
  writer : http.Header;
  trace : list event;
}.

(** [rw.Header().Add(key, value)]. *)
Definition rwAdd (w : http.Header * list event) (key value : string)
  : http.Header * list event :=
  (http.Add w.1 key value, w.2 ++ [RwAdd key value]).

(** [ServeHTTP], lines 126 to 128: the two preflight headers go to local
    variables, the origin goes to the field of the receiver. *)
Definition ServeHTTP_load (s : Header) (req : http.Request)
  : Header * (string * string) :=
  let reqAcMethod := http.Get (http.req_Header req) "Access-Control-Request-Method" in
  let reqAcHeaders := http.Get (http.req_Header req) "Access-Control-Request-Headers" in
  let s := mkHeader (next s) (headers s) (http.Get (http.req_Header req) "Origin") in
  (s, (reqAcMethod, reqAcHeaders)).

(** [ServeHTTP], lines 130 to 159. *)
Definition ServeHTTP_respond (s : Header) (ord : list (string * string))
    (reqAcMethod reqAcHeaders : string) (rw : http.Header) (req : http.Request)
  : outcome :=
  if decide (reqAcMethod <> "" /\ reqAcHeaders <> "" /\ originHeader s <> ""
             /\ http.Method req = http.MethodOptions) then
    let w : http.Header * list event := (rw, []) in
    let w :=
      if AccessControlAllowCredentials (headers s)
      then rwAdd w "Access-Control-Allow-Credentials" "true"
      else w in
    let allowHeaders := go.Join (AccessControlAllowHeaders (headers s)) "," in
    let w :=
      if decide (allowHeaders <> "")
      then rwAdd w "Access-Control-Allow-Headers" allowHeaders
      else w in
    let allowMethods := go.Join (AccessControlAllowMethods (headers s)) "," in
    let w :=
      if decide (allowMethods <> "")
      then rwAdd w "Access-Control-Allow-Methods" allowMethods
      else w in
    let allowOrigin := getAllowOrigin s in
    let w :=
      if decide (allowOrigin <> "")
      then rwAdd w "Access-Control-Allow-Origin" allowOrigin
      else w in
    let w :=
      rwAdd w "Access-Control-Max-Age"
        (go.Itoa (go.int (AccessControlMaxAge (headers s)))) in
    mkOutcome s w.1 w.2
  else
    let req := modifyRequestHeaders s ord req in
    match next s with
    | Some n => mkOutcome s (serve n rw req) [NextServeHTTP n req]
    | None => mkOutcome s rw []
    end.

(** [Header.ServeHTTP]. *)
Definition ServeHTTP (s : Header) (ord : list (string * string))
    (rw : http.Header) (req : http.Request) : outcome :=
  let '(s, (reqAcMethod, reqAcHeaders)) := ServeHTTP_load s req in
  ServeHTTP_respond s ord reqAcMethod reqAcHeaders rw req.

(** *** Two requests served at once

    One [Header] is built for a route and serves all its requests, each call
    of [ServeHTTP] in a goroutine of its own.  A goroutine is about to start,
    or has done lines 126 to 128, or has returned; the receiver is the memory
    the goroutines share. *)
Inductive goroutine : Type :=
| AtEntry (rw : http.Header) (req : http.Request)
| AtLine130 (reqAcMethod reqAcHeaders : string) (rw : http.Header) (req : http.Request)
| Returned (rw : http.Header) (tr : list event).

Definition step (ord : list (string * string)) (s : Header) (g : goroutine)
  : Header * goroutine :=
  match g with
  | AtEntry rw req =>
      let '(s, (reqAcMethod, reqAcHeaders)) := ServeHTTP_load s req in
      (s, AtLine130 reqAcMethod reqAcHeaders rw req)
  | AtLine130 reqAcMethod reqAcHeaders rw req =>
      let o := ServeHTTP_respond s ord reqAcMethod reqAcHeaders rw req in
      (receiver o, Returned (writer o) (trace o))
  | Returned _ _ => (s, g)
  end.

(** A schedule names the goroutine that moves next: [true] for the first,
    [false] for the second. *)
Fixpoint run (sched : list bool) (ord : list (string * string)) (s : Header)
    (g1 g2 : goroutine) : Header * goroutine * goroutine :=
  match sched with
  | [] => (s, g1, g2)
  | true :: sched => let '(s, g1) := step ord s g1 in run sched ord s g1 g2
  | false :: sched => let '(s, g2) := step ord s g2 in run sched ord s g1 g2
  end.

(** ** Package [responsemodifiers] *)

(** [secure.New(opt).ModifyResponseHeaders], of the external package. *)
Variable secure_ModifyResponseHeaders :
  SecureOptions -> http.Response -> option string * http.Response.

(** The function [buildHeaders] returns, applied to a response; [ord] is the
    visiting order of the loop in [ModifyResponseHeaders]. *)
Definition buildHeaders (hdrs : Headers) (ord : list (string * string))
    (resp : http.Response) : option string * http.Response :=
  let opt := SecureFields hdrs in
  let '(err, resp) :=
    if HasCustomHeadersDefined hdrs || HasCorsHeadersDefined hdrs
    then ModifyResponseHeaders (NewHeader None hdrs) ord resp
    else (None, resp) in
  match err with
  | Some e => (Some e, resp)
  | None =>
      if HasSecureHeadersDefined hdrs
      then secure_ModifyResponseHeaders opt resp
      else (None, resp)
  end.

(** ** Notions used to state the properties *)

(** A preflight request (section 4.2 of the specification). *)
Definition preflight (req : http.Request) : Prop :=
  http.Method req = "OPTIONS"
  /\ http.Get (http.req_Header req) "Access-Control-Request-Method" <> ""
  /\ http.Get (http.req_Header req) "Access-Control-Request-Headers" <> ""
  /\ http.Get (http.req_Header req) "Origin" <> "".

(** The events that add a header line to the response writer. *)
Definition isRwAdd (e : event) : Prop :=
  match e with RwAdd _ _ => True | NextServeHTTP _ _ => False end.

(** The header lines of a trace, added to a header collection in the order
    of the trace. *)
Definition replay (rw : http.Header) (tr : list event) : http.Header :=
  foldl (fun h e => match e with
                    | RwAdd key value => http.Add h key value
                    | NextServeHTTP _ _ => h
                    end) rw tr.

(** The values that the header lines of a trace add under the key [k], in
    the order of the trace. *)
Fixpoint linesFor (k : string) (tr : list event) : list string :=
  match tr with
  | [] => []
  | RwAdd key value :: tr =>
      if decide (textproto.CanonicalMIMEHeaderKey key = k)
      then value :: linesFor k tr else linesFor k tr
  | NextServeHTTP _ _ :: tr => linesFor k tr
  end.

(** The keys that the answer to a preflight request can write. *)
Definition preflightKeys : list string :=
  ["Access-Control-Allow-Credentials"; "Access-Control-Allow-Headers";
   "Access-Control-Allow-Methods"; "Access-Control-Allow-Origin";
   "Access-Control-Max-Age"].

(** The keys that the CORS steps of [ModifyResponseHeaders] can write. *)
Definition corsResponseKeys : list string :=
  ["Access-Control-Allow-Origin"; "Vary"; "Access-Control-Allow-Credentials";
   "Access-Control-Expose-Headers"].

(** The values of an [int64]. *)
Definition int64_range (x : Z) : Prop := (- 2 ^ 63 <= x < 2 ^ 63)%Z.

(** What a visited entry with value [value] leaves under the canonical name
    of its header: nothing, or the single value. *)
Definition stored (value : string) : option (list string) :=
  if decide (value = "") then None else Some [value].

(** What the loop leaves under the key [k], when an entry of [ord] writes
    there: the last such entry decides. *)
Fixpoint lastWrite (k : string) (ord : list (string * string))
  : option (option (list string)) :=
  match ord with
  | [] => None
  | (header, value) :: ord =>
      match lastWrite k ord with
      | Some r => Some r
      | None =>
          if decide (textproto.CanonicalMIMEHeaderKey header = k)
          then Some (stored value) else None
      end
  end.

(** The names of a mapping stay distinct once they are canonical. *)
Definition canonical_names_distinct (m : gmap string string) : Prop :=
  forall k1 k2, is_Some (m !! k1) -> is_Some (m !! k2) ->
    textproto.CanonicalMIMEHeaderKey k1 = textproto.CanonicalMIMEHeaderKey k2 ->
    k1 = k2.

(** No name of a mapping is a spelling of the header [key]. *)
Definition names_avoid (m : gmap string string) (key : string) : Prop :=
  forall k, is_Some (m !! k) -> textproto.CanonicalMIMEHeaderKey k <> key.

(** The value [ModifyResponseHeaders] gives to [Vary] when it finds the
    value [v] there. *)
Definition withOrigin (v : string) : string :=
  if decide (v <> "") then v +:+ ",Origin" else "Origin".

End headers.

Arguments mkHeader {SecureOptions handler} _ _ _.
Arguments next {SecureOptions handler} _.
Arguments headers {SecureOptions handler} _.
Arguments originHeader {SecureOptions handler} _.

(** ** Concrete policies, requests and responses

    The secure-header fields and the handlers from outside play no part in
    them and are taken in [unit]. *)

(** Reflect the origin, allow credentials, two allowed headers and methods,
    a maximal age of zero. *)
Definition policy_reflect : @Headers unit :=
  mkHeaders ∅ ∅ true ["X-Foo"; "X-Bar"] ["GET"; "POST"]
    "origin-list-or-null" [] 0 true tt.

(** An explicit origin, which [getAllowOrigin] does not know, with
    credentials. *)
Definition policy_explicit : @Headers unit :=
  mkHeaders ∅ ∅ true [] [] "http://example.com" [] 600 true tt.

(** Any origin, [Vary] to be extended, and custom headers of distinct
    names, one of them to be deleted. *)
Definition policy_custom : @Headers unit :=
  mkHeaders {["X-Trace" := "on"; "x-powered-by" := ""]}
    {["X-Frame-Options" := "deny"; "server" := ""]}
    false [] [] "*" ["X-Total"] 0 true tt.

(** Any origin, [Vary] to be extended, and a custom response header named
    [Vary]. *)
Definition policy_custom_vary : @Headers unit :=
  mkHeaders ∅ {["Vary" := "X"]} false [] [] "*" [] 0 true tt.

(** Two custom headers whose names differ in case only. *)
Definition policy_collide : @Headers unit :=
  mkHeaders {["x-a" := "1"; "X-A" := "2"]} {["x-a" := "1"; "X-A" := "2"]}
    false [] [] "" [] 0 false tt.

(** The [Header] of a policy, as [NewHeader] makes it, with no next
    handler. *)
Definition fresh (cfg : @Headers unit) : @Header unit unit := NewHeader None cfg.

Definition preflight_from (origin : string) : http.Request :=
  http.mkRequest "OPTIONS"
    {["Origin" := [origin];
      "Access-Control-Request-Method" := ["GET"];
      "Access-Control-Request-Headers" := ["X-Foo"]]}.

Definition get_from (origin : string) : http.Request :=
  http.mkRequest "GET" {["Origin" := [origin]; "X-Powered-By" := ["php"]]}.

Definition response_vary : http.Response :=
  http.mkResponse {["Vary" := ["Accept-Encoding"]; "Server" := ["nginx"]]}
    (Some (get_from "http://a")).

Definition response_plain : http.Response :=
  http.mkResponse {["Content-Type" := ["text/html"]]} (Some (get_from "http://a")).

(** A request that is not cross-origin. *)
Definition get_plain : http.Request :=
  http.mkRequest "GET" {["Accept" := ["text/html"]]}.

(** A [Header] with a backend behind it. *)
Definition with_backend (cfg : @Headers unit) : @Header unit unit :=
  NewHeader (Some (backendHandler tt)) cfg.

(** A response writer that already holds two header lines. *)
Definition writer_used : http.Header :=
  {["Access-Control-Max-Age" := ["99"]; "X-Request-Id" := ["7"]]}.

(** A handler that leaves the response writer as it is. *)
Definition serve_nothing (h : @Handler unit unit) (rw : http.Header)
    (req : http.Request) : http.Header := rw.

(** The secure-header engine, doing nothing. *)
Definition secure_nothing (opt : unit) (resp : http.Response)
  : option string * http.Response := (None, resp).

(** Sample tests to stand for the three methods of package [config]: no
    secure-header policy; a custom-header policy when one of the two
    mappings has an entry; a CORS policy when an origin policy is given. *)
Definition hasSecure (h : @Headers unit) : bool := false.

Definition hasCustom (h : @Headers unit) : bool :=
  negb (bool_decide (CustomRequestHeaders h = ∅))
  || negb (bool_decide (CustomResponseHeaders h = ∅)).

Definition hasCors (h : @Headers unit) : bool :=
  negb (bool_decide (AccessControlAllowOrigin h = "")).

(** * Properties *)

Section properties.

Context {SecureOptions Backend : Type}.
Variable HasSecureHeadersDefined : @Headers SecureOptions -> bool.
Variable HasCustomHeadersDefined : @Headers SecureOptions -> bool.
Variable HasCorsHeadersDefined : @Headers SecureOptions -> bool.
Variable serve : @Handler SecureOptions Backend -> http.Header -> http.Request -> http.Header.
Variable secure_ModifyResponseHeaders :
  SecureOptions -> http.Response -> option string * http.Response.

Local Abbreviation Headers := (@Headers SecureOptions).
Local Abbreviation Handler := (@Handler SecureOptions Backend).
Local Abbreviation Header := (@Header SecureOptions Backend).
Local Abbreviation NewHeader := (@NewHeader SecureOptions Backend).
Local Abbreviation New := (New HasSecureHeadersDefined HasCustomHeadersDefined HasCorsHeadersDefined).
Local Abbreviation ServeHTTP := (ServeHTTP serve).
Local Abbreviation ServeHTTP_respond := (ServeHTTP_respond serve).
Local Abbreviation run := (run serve).
Local Abbreviation buildHeaders :=
  (buildHeaders (Backend := Backend) HasSecureHeadersDefined HasCustomHeadersDefined
     HasCorsHeadersDefined secure_ModifyResponseHeaders).

(** ** The custom-header loop *)

Lemma setOrDel_lookup (h : http.Header) (header value k : string) :
  setOrDel h (header, value) !! k =
  if decide (textproto.CanonicalMIMEHeaderKey header = k)
  then stored value else h !! k.
Proof.
  unfold setOrDel, stored, http.Del, http.Set_.
  destruct (decide (value = "")) as [Hv|Hv].
  - rewrite lookup_delete. reflexivity.
  - rewrite lookup_insert. reflexivity.
Qed.

(** The loop is decided key by key: the last entry that writes a key wins,
    and a key no entry writes keeps what it had. *)
Lemma customHeaders_lookup (ord : list (string * string)) :
  forall (h : http.Header) (k : string),
    customHeaders h ord !! k = default (h !! k) (lastWrite k ord).
Proof.
  unfold customHeaders.
  induction ord as [|[header value] ord IH]; intros h k; cbn [foldl lastWrite].
  - reflexivity.
  - rewrite IH. destruct (lastWrite k ord) as [r|]; cbn [default].
    + reflexivity.
    + rewrite setOrDel_lookup. case_decide; reflexivity.
Qed.

Lemma lastWrite_None (k : string) (ord : list (string * string)) :
  lastWrite k ord = None <->
  Forall (fun e => textproto.CanonicalMIMEHeaderKey e.1 <> k) ord.
Proof.
  induction ord as [|[header value] ord IH]; simpl.
  - split; [constructor | reflexivity].
  - rewrite Forall_cons. simpl. rewrite <- IH.
    destruct (lastWrite k ord) as [r|].
    + split; [discriminate | intros [_ ?]; discriminate].
    + case_decide; split; try discriminate; try done.
      intros [Hne _]. contradiction.
Qed.

Lemma lastWrite_Some (k : string) (ord : list (string * string)) r :
  lastWrite k ord = Some r ->
  exists header value,
    (header, value) ∈ ord /\ textproto.CanonicalMIMEHeaderKey header = k
    /\ r = stored value.
Proof.
  induction ord as [|[header value] ord IH]; simpl; [discriminate|].
  destruct (lastWrite k ord) as [r'|].
  - intros [= <-]. destruct IH as (h' & v' & Hin & Hk & Hr); [reflexivity|].
    exists h', v'. split; [by apply list_elem_of_further | done].
  - case_decide; [|discriminate]. intros [= <-].
    exists header, value. split; [apply list_elem_of_here | done].
Qed.

Lemma lastWrite_NoDup (ord : list (string * string)) (header value : string) :
  NoDup (textproto.CanonicalMIMEHeaderKey <$> ord.*1) ->
  (header, value) ∈ ord ->
  lastWrite (textproto.CanonicalMIMEHeaderKey header) ord = Some (stored value).
Proof.
  induction ord as [|[h0 v0] ord IH]; simpl.
  - intros _ Hin. by apply elem_of_nil in Hin.
  - rewrite NoDup_cons. intros [Hnotin Hnd] Hin.
    apply elem_of_cons in Hin as [[= -> ->]|Hin].
    + assert (lastWrite (textproto.CanonicalMIMEHeaderKey h0) ord = None) as ->.
      { apply lastWrite_None, Forall_forall. intros [h1 v1] Hin Heq. simpl in Heq.
        apply Hnotin. rewrite <- Heq.
        apply list_elem_of_fmap. exists h1. split; [reflexivity|].
        apply list_elem_of_fmap. by exists (h1, v1). }
      by rewrite decide_True.
    + by rewrite IH.
Qed.

Lemma lastWrite_Permutation (k : string) (ord1 ord2 : list (string * string)) :
  NoDup (textproto.CanonicalMIMEHeaderKey <$> ord1.*1) ->
  ord1 ≡ₚ ord2 ->
  lastWrite k ord1 = lastWrite k ord2.
Proof.
  intros Hnd Hperm.
  assert (NoDup (textproto.CanonicalMIMEHeaderKey <$> ord2.*1)) as Hnd2.
  { by rewrite <- Hperm. }
  destruct (lastWrite k ord1) as [r|] eqn:H1.
  - apply lastWrite_Some in H1 as (header & value & Hin & <- & ->).
    symmetry. apply lastWrite_NoDup; [done|]. by rewrite <- Hperm.
  - symmetry. apply lastWrite_None. rewrite <- Hperm. by apply lastWrite_None.
Qed.

Lemma range_order_NoDup (m : gmap string string) (ord : list (string * string)) :
  go.range_order m ord -> canonical_names_distinct m ->
  NoDup (textproto.CanonicalMIMEHeaderKey <$> ord.*1).
Proof.
  unfold go.range_order. intros Hperm Hdist.
  apply NoDup_fmap_2_strong.
  - intros k1 k2 H1 H2 Heq. apply Hdist; [| |exact Heq].
    + apply list_elem_of_fmap in H1 as [[k v] [-> Hin]].
      rewrite Hperm in Hin. apply elem_of_map_to_list in Hin. by exists v.
    + apply list_elem_of_fmap in H2 as [[k v] [-> Hin]].
      rewrite Hperm in Hin. apply elem_of_map_to_list in Hin. by exists v.
  - rewrite Hperm. apply NoDup_fst_map_to_list.
Qed.

(** Two loops over one mapping write the same, when they visit it in the
    same order or when its names stay distinct once they are canonical. *)
Lemma lastWrite_agree (m : gmap string string) (ord1 ord2 : list (string * string)) :
  go.range_order m ord1 -> go.range_order m ord2 ->
  ord1 = ord2 \/ canonical_names_distinct m ->
  forall k, lastWrite k ord1 = lastWrite k ord2.
Proof.
  intros H1 H2 [->|Hdist] k; [reflexivity|].
  apply lastWrite_Permutation.
  - by eapply range_order_NoDup.
  - unfold go.range_order in *. by rewrite H1, H2.
Qed.

Lemma customHeaders_twice (m : gmap string string) (ord1 ord2 : list (string * string))
    (h : http.Header) :
  go.range_order m ord1 -> go.range_order m ord2 ->
  ord1 = ord2 \/ canonical_names_distinct m ->
  customHeaders (customHeaders h ord1) ord2 = customHeaders h ord1.
Proof.
  intros H1 H2 Hagree. apply map_eq. intros k.
  rewrite !customHeaders_lookup.
  rewrite <- (lastWrite_agree m ord1 ord2 H1 H2 Hagree k).
  by destruct (lastWrite k ord1).
Qed.

Lemma range_order_avoid (m : gmap string string) (ord : list (string * string)) (key : string) :
  go.range_order m ord -> names_avoid m key -> lastWrite key ord = None.
Proof.
  unfold go.range_order. intros Hperm Havoid.
  apply lastWrite_None, Forall_forall. intros [k v] Hin. simpl.
  apply Havoid. rewrite Hperm in Hin. apply elem_of_map_to_list in Hin. by exists v.
Qed.

(** ** [ModifyResponseHeaders], key by key *)

(** Closes the cases where the tests on the key contradict each other. *)
Ltac by_cases_on_key :=
  try (exfalso;
       repeat match goal with H : _ /\ _ |- _ => destruct H end;
       simplify_eq; intuition (auto; congruence)).

Lemma Get_lookup (h1 h2 : http.Header) (key : string) :
  h1 !! textproto.CanonicalMIMEHeaderKey key = h2 !! textproto.CanonicalMIMEHeaderKey key ->
  http.Get h1 key = http.Get h2 key.
Proof. unfold http.Get. by intros ->. Qed.

Lemma Get_Set_other (h : http.Header) (key key' value : string) :
  textproto.CanonicalMIMEHeaderKey key <> textproto.CanonicalMIMEHeaderKey key' ->
  http.Get (http.Set_ h key value) key' = http.Get h key'.
Proof.
  intros Hne. apply Get_lookup. unfold http.Set_. by rewrite lookup_insert_ne.
Qed.


(** The header collection [ModifyResponseHeaders] leaves: the CORS steps
    decide four keys, the custom-header loop the others. *)
Lemma ModifyResponseHeaders_lookup (s : Header) (ord : list (string * string))
    (res : http.Response) (k : string) :
  http.res_Header (ModifyResponseHeaders s ord res).2 !! k =
  let h1 := customHeaders (http.res_Header res) ord in
  let exposeHeaders := go.Join (AccessControlExposeHeaders (headers s)) "," in
  if decide (k = "Access-Control-Expose-Headers" /\ exposeHeaders <> "")
  then Some [exposeHeaders]
  else if decide (k = "Access-Control-Allow-Credentials"
                  /\ AccessControlAllowCredentials (headers s) = true)
  then Some ["true"]
  else if decide (k = "Vary" /\ getAllowOrigin s <> ""
                  /\ AddVaryHeader (headers s) = true)
  then Some [withOrigin (http.Get h1 "Vary")]
  else if decide (k = "Access-Control-Allow-Origin" /\ getAllowOrigin s <> "")
  then Some [getAllowOrigin s]
  else h1 !! k.
Proof.
  unfold ModifyResponseHeaders. cbn [snd http.res_Header]. cbv zeta.
  set (h1 := customHeaders (http.res_Header res) ord).
  set (ao := getAllowOrigin s).
  set (ex := go.Join (AccessControlExposeHeaders (headers s)) ",").
  assert (http.Get (http.Set_ h1 "Access-Control-Allow-Origin" ao) "Vary"
          = http.Get h1 "Vary") as HV by (by apply Get_Set_other).
  unfold withOrigin.
  destruct (decide (ex <> "")) as [Hex|Hex];
    destruct (AccessControlAllowCredentials (headers s));
    destruct (decide (ao <> "")) as [Hao|Hao];
    destruct (AddVaryHeader (headers s));
    rewrite ?HV; unfold http.Set_;
    change (textproto.CanonicalMIMEHeaderKey "Access-Control-Expose-Headers")
      with "Access-Control-Expose-Headers";
    change (textproto.CanonicalMIMEHeaderKey "Access-Control-Allow-Credentials")
      with "Access-Control-Allow-Credentials";
    change (textproto.CanonicalMIMEHeaderKey "Access-Control-Allow-Origin")
      with "Access-Control-Allow-Origin";
    change (textproto.CanonicalMIMEHeaderKey "Vary") with "Vary";
    rewrite ?lookup_insert;
    repeat case_decide; try reflexivity; by_cases_on_key.
Qed.

Lemma range_order_empty : go.range_order ∅ [].
Proof. unfold go.range_order. by rewrite map_to_list_empty. Qed.

Lemma range_order_singleton (k v : string) : go.range_order {[k := v]} [(k, v)].
Proof. unfold go.range_order. by rewrite map_to_list_singleton. Qed.

Lemma names_avoid_empty (key : string) : names_avoid ∅ key.
Proof. intros k [v Hv]. by rewrite lookup_empty in Hv. Qed.

Lemma names_avoid_singleton (k v key : string) :
  textproto.CanonicalMIMEHeaderKey k <> key -> names_avoid {[k := v]} key.
Proof.
  intros Hne k' [v' Hv]. apply lookup_singleton_Some in Hv as [<- _]. exact Hne.
Qed.

Lemma range_order_list_to_map (ord : list (string * string)) :
  NoDup ord.*1 -> go.range_order (list_to_map ord) ord.
Proof. intros Hnd. unfold go.range_order. by rewrite map_to_list_to_map. Qed.

Lemma canonical_names_distinct_NoDup (m : gmap string string)
    (ord : list (string * string)) :
  go.range_order m ord ->
  NoDup (textproto.CanonicalMIMEHeaderKey <$> ord.*1) ->
  canonical_names_distinct m.
Proof.
  unfold go.range_order. intros Hperm Hnd k1 k2 [v1 H1] [v2 H2] Heq.
  apply elem_of_map_to_list in H1, H2. rewrite <- Hperm in H1, H2.
  apply list_elem_of_lookup in H1 as [i1 H1], H2 as [i2 H2].
  assert (i1 = i2) as ->.
  { eapply NoDup_lookup; [exact Hnd| |].
    - rewrite !list_lookup_fmap, H1. reflexivity.
    - rewrite !list_lookup_fmap, H2. cbn. by rewrite Heq. }
  congruence.
Qed.

Lemma names_avoid_Forall (m : gmap string string) (ord : list (string * string))
    (key : string) :
  go.range_order m ord ->
  Forall (fun e => textproto.CanonicalMIMEHeaderKey e.1 <> key) ord ->
  names_avoid m key.
Proof.
  unfold go.range_order. intros Hperm Hall k [v Hv].
  apply elem_of_map_to_list in Hv. rewrite <- Hperm in Hv.
  rewrite Forall_forall in Hall. exact (Hall _ Hv).
Qed.

(** ** The properties *)

(** C2.  Resolution of the allowed origin, for every policy and every stored
    origin: under [origin-list-or-null] it is the string [null] for the empty
    origin and the origin itself otherwise; under [*] it is [*] whatever the
    origin; under any other configured value it is the empty string. *)
Theorem getAllowOrigin_resolution (nxt : option Handler) (cfg : Headers) (origin : string) :
  let s := mkHeader nxt cfg origin in
  (AccessControlAllowOrigin cfg = "origin-list-or-null" -> origin = "" ->
     getAllowOrigin s = "null")
  /\ (AccessControlAllowOrigin cfg = "origin-list-or-null" -> origin <> "" ->
     getAllowOrigin s = origin)
  /\ (AccessControlAllowOrigin cfg = "*" -> getAllowOrigin s = "*")
  /\ (AccessControlAllowOrigin cfg <> "origin-list-or-null" ->
      AccessControlAllowOrigin cfg <> "*" -> getAllowOrigin s = "").
Proof.
  unfold getAllowOrigin. cbn [headers originHeader].
  repeat split.
  - intros -> ->. reflexivity.
  - intros -> Hne. rewrite decide_True by reflexivity. by rewrite decide_False.
  - intros ->. reflexivity.
  - intros H1 H2. by rewrite !decide_False.
Qed.

(** C8.  [New] fails, with the error of an invalid configuration, exactly
    when none of the secure-header, custom-header and CORS policies is
    configured; when one of them is, it returns a [headers] handler that
    wraps a handler. *)
Theorem New_fails_iff_nothing_configured (nxt : option Handler) (config : Headers)
    (name : string) :
  (New nxt config name = inl "headers configuration not valid" <->
     HasSecureHeadersDefined config = false
     /\ HasCustomHeadersDefined config = false
     /\ HasCorsHeadersDefined config = false)
  /\ ((exists e, New nxt config name = inl e) <->
      New nxt config name = inl "headers configuration not valid")
  /\ ((exists h, New nxt config name = inr (headersHandler name (Some h))) <->
      HasSecureHeadersDefined config = true
      \/ HasCustomHeadersDefined config = true
      \/ HasCorsHeadersDefined config = true).
Proof.
  unfold New.
  destruct (HasSecureHeadersDefined config), (HasCustomHeadersDefined config),
    (HasCorsHeadersDefined config); cbn;
    (split; [|split]); split;
    try (intros (? & ? & ?)); try (intros [? ?]); try (intros [?|[?|?]]);
    try discriminate; try reflexivity; eauto.
Qed.

(** C6.  With [AccessControlAllowCredentials] set, the response that
    [ModifyResponseHeaders] leaves carries
    [Access-Control-Allow-Credentials: true], whatever the allowed origin
    resolves to, and no error is returned. *)
Theorem credentials_header_unconditional (s : Header) (ord : list (string * string))
    (res : http.Response) :
  AccessControlAllowCredentials (headers s) = true ->
  (ModifyResponseHeaders s ord res).1 = None
  /\ http.res_Header (ModifyResponseHeaders s ord res).2
       !! "Access-Control-Allow-Credentials" = Some ["true"]
  /\ http.Get (http.res_Header (ModifyResponseHeaders s ord res).2)
       "Access-Control-Allow-Credentials" = "true".
Proof.
  intros Hcred.
  assert (http.res_Header (ModifyResponseHeaders s ord res).2
            !! "Access-Control-Allow-Credentials" = Some ["true"]) as Hl.
  { rewrite ModifyResponseHeaders_lookup. cbv zeta.
    rewrite decide_False by (intros [? _]; discriminate).
    by rewrite decide_True. }
  split; [reflexivity|]. split; [exact Hl|].
  unfold http.Get.
  change (textproto.CanonicalMIMEHeaderKey "Access-Control-Allow-Credentials")
    with "Access-Control-Allow-Credentials".
  by rewrite Hl.
Qed.

Lemma Get_of_lookup (h : http.Header) (key v : string) :
  h !! textproto.CanonicalMIMEHeaderKey key = Some [v] -> http.Get h key = v.
Proof. unfold http.Get. by intros ->. Qed.

(** The value of [Vary] that [ModifyResponseHeaders] leaves is decided by
    the value the custom-header loop leaves there. *)
Lemma ModifyResponseHeaders_Vary (s : Header) (ord : list (string * string))
    (res : http.Response) :
  let h1 := customHeaders (http.res_Header res) ord in
  http.res_Header (ModifyResponseHeaders s ord res).2 !! "Vary" =
  if decide (getAllowOrigin s <> "" /\ AddVaryHeader (headers s) = true)
  then Some [withOrigin (http.Get h1 "Vary")]
  else h1 !! "Vary".
Proof.
  rewrite ModifyResponseHeaders_lookup. cbv zeta.
  rewrite decide_False by (intros [? _]; discriminate).
  rewrite decide_False by (intros [? _]; discriminate).
  destruct (decide (getAllowOrigin s <> "" /\ AddVaryHeader (headers s) = true))
    as [[? ?]|Hn].
  - by rewrite decide_True.
  - rewrite decide_False by (intros (_ & ? & ?); by apply Hn).
    by rewrite decide_False by (intros [? _]; discriminate).
Qed.


(** C7, as the code has it.  When the two runs of a custom-header loop visit
    the mapping in the same order, or when the names of the mapping stay
    distinct once they are canonical, the second run leaves the headers as
    the first run left them; this holds for [modifyRequestHeaders] and for
    the loop of [ModifyResponseHeaders].  An entry with the empty value
    does what deleting the header does. *)
Theorem custom_headers_idempotent (s : Header) (req : http.Request)
    (res : http.Response) (q1 q2 p1 p2 : list (string * string)) :
  go.range_order (CustomRequestHeaders (headers s)) q1 ->
  go.range_order (CustomRequestHeaders (headers s)) q2 ->
  q1 = q2 \/ canonical_names_distinct (CustomRequestHeaders (headers s)) ->
  go.range_order (CustomResponseHeaders (headers s)) p1 ->
  go.range_order (CustomResponseHeaders (headers s)) p2 ->
  p1 = p2 \/ canonical_names_distinct (CustomResponseHeaders (headers s)) ->
  modifyRequestHeaders s q2 (modifyRequestHeaders s q1 req)
    = modifyRequestHeaders s q1 req
  /\ customHeaders (customHeaders (http.res_Header res) p1) p2
    = customHeaders (http.res_Header res) p1
  /\ (forall (h : http.Header) (header : string),
       setOrDel h (header, "") = http.Del h header).
Proof.
  intros Hq1 Hq2 Hq Hp1 Hp2 Hp. repeat split.
  - unfold modifyRequestHeaders. cbn [http.Method http.req_Header].
    f_equal. by eapply customHeaders_twice.
  - by eapply customHeaders_twice.
Qed.

(** C9.  The [Header] that [buildHeaders] makes for a response starts with an
    empty stored origin.  So under the policy [origin-list-or-null], and with
    the custom-header or the CORS policy configured, the response it rewrites
    has [Access-Control-Allow-Origin: null] whatever request the response
    answers; only the secure-header engine runs after that. *)
Theorem buildHeaders_origin_is_null (hdrs : Headers) (ord : list (string * string))
    (resp : http.Response) :
  AccessControlAllowOrigin hdrs = "origin-list-or-null" ->
  HasCustomHeadersDefined hdrs || HasCorsHeadersDefined hdrs = true ->
  let r := (ModifyResponseHeaders (NewHeader None hdrs) ord resp).2 in
  originHeader (NewHeader None hdrs) = ""
  /\ getAllowOrigin (NewHeader None hdrs) = "null"
  /\ http.res_Header r !! "Access-Control-Allow-Origin" = Some ["null"]
  /\ buildHeaders hdrs ord resp =
       if HasSecureHeadersDefined hdrs
       then secure_ModifyResponseHeaders (SecureFields hdrs) r
       else (None, r).
Proof.
  intros Hpol Hguard r.
  assert (getAllowOrigin (NewHeader None hdrs) = "null") as Hnull.
  { unfold getAllowOrigin, NewHeader. cbn [headers originHeader].
    by rewrite Hpol. }
  split; [reflexivity|]. split; [exact Hnull|]. split.
  - subst r. rewrite ModifyResponseHeaders_lookup. cbv zeta.
    rewrite decide_False by (intros [? _]; discriminate).
    rewrite decide_False by (intros [? _]; discriminate).
    rewrite decide_False by (intros [? _]; discriminate).
    rewrite Hnull. by rewrite decide_True.
  - unfold buildHeaders. rewrite Hguard. reflexivity.
Qed.


(** A second run of [ModifyResponseHeaders] leaves every key but [Vary] as
    the first run left it. *)
Lemma ModifyResponseHeaders_twice_lookup (s : Header) (ord1 ord2 : list (string * string))
    (res : http.Response) (k : string) :
  go.range_order (CustomResponseHeaders (headers s)) ord1 ->
  go.range_order (CustomResponseHeaders (headers s)) ord2 ->
  ord1 = ord2 \/ canonical_names_distinct (CustomResponseHeaders (headers s)) ->
  k <> "Vary" ->
  http.res_Header (ModifyResponseHeaders s ord2 (ModifyResponseHeaders s ord1 res).2).2 !! k
  = http.res_Header (ModifyResponseHeaders s ord1 res).2 !! k.
Proof.
  intros H1 H2 Hagree Hk.
  rewrite (ModifyResponseHeaders_lookup s ord2). cbv zeta.
  rewrite customHeaders_lookup.
  rewrite <- (lastWrite_agree _ _ _ H1 H2 Hagree k).
  rewrite !(ModifyResponseHeaders_lookup s ord1). cbv zeta.
  rewrite customHeaders_lookup.
  repeat case_decide; try reflexivity; by_cases_on_key;
    by destruct (lastWrite k ord1).
Qed.


(** ** [ServeHTTP] *)

Lemma Add_lookup (h : http.Header) (key value k : string) :
  http.Add h key value !! k =
  if decide (textproto.CanonicalMIMEHeaderKey key = k)
  then Some (default [] (h !! k) ++ [value])
  else h !! k.
Proof.
  unfold http.Add. cbv zeta. rewrite lookup_insert.
  case_decide; [by subst | reflexivity].
Qed.

Lemma int_int64 (x : Z) : int64_range x -> go.int x = x.
Proof.
  unfold int64_range, go.int. intros Hx.
  rewrite Z.mod_small by lia. lia.
Qed.

Lemma Join_nonempty (elems : list string) (sep : string) :
  go.Join elems sep <> "" -> elems <> [].
Proof. by destruct elems. Qed.

(** The header lines of the answer to a preflight request, in the order of
    the statements that add them. *)
Lemma ServeHTTP_preflight (s : Header) (ord : list (string * string))
    (rw : http.Header) (req : http.Request) :
  preflight req ->
  let s' := mkHeader (next s) (headers s) (http.Get (http.req_Header req) "Origin") in
  let tr :=
    (if AccessControlAllowCredentials (headers s)
     then [RwAdd "Access-Control-Allow-Credentials" "true"] else [])
    ++ (if decide (go.Join (AccessControlAllowHeaders (headers s)) "," <> "")
        then [RwAdd "Access-Control-Allow-Headers"
                (go.Join (AccessControlAllowHeaders (headers s)) ",")] else [])
    ++ (if decide (go.Join (AccessControlAllowMethods (headers s)) "," <> "")
        then [RwAdd "Access-Control-Allow-Methods"
                (go.Join (AccessControlAllowMethods (headers s)) ",")] else [])
    ++ (if decide (getAllowOrigin s' <> "")
        then [RwAdd "Access-Control-Allow-Origin" (getAllowOrigin s')] else [])
    ++ [RwAdd "Access-Control-Max-Age"
          (go.Itoa (go.int (AccessControlMaxAge (headers s))))] in
  ServeHTTP s ord rw req = mkOutcome s' (replay rw tr) tr.
Proof.
  intros (Hm & Hacm & Hach & Ho) s'.
  unfold ServeHTTP, ServeHTTP_load, ServeHTTP_respond. cbv zeta.
  fold s'. rewrite decide_True by done.
  change (headers s') with (headers s).
  destruct (AccessControlAllowCredentials (headers s));
    destruct (decide (go.Join (AccessControlAllowHeaders (headers s)) "," <> ""));
    destruct (decide (go.Join (AccessControlAllowMethods (headers s)) "," <> ""));
    destruct (decide (getAllowOrigin s' <> ""));
    reflexivity.
Qed.

Lemma ServeHTTP_not_preflight (s : Header) (ord : list (string * string))
    (rw : http.Header) (req : http.Request) :
  ~ preflight req ->
  let s' := mkHeader (next s) (headers s) (http.Get (http.req_Header req) "Origin") in
  let req' := modifyRequestHeaders s ord req in
  ServeHTTP s ord rw req =
  match next s with
  | Some n => mkOutcome s' (serve n rw req') [NextServeHTTP n req']
  | None => mkOutcome s' rw []
  end.
Proof.
  intros Hnot s' req'.
  unfold ServeHTTP, ServeHTTP_load, ServeHTTP_respond. cbv zeta.
  fold s'. rewrite decide_False; [reflexivity|].
  intros (Hacm & Hach & Ho & Hm). apply Hnot. by repeat split.
Qed.

(** The origin of the request is kept in the receiver. *)
Lemma ServeHTTP_stores_origin (s : Header) (ord : list (string * string))
    (rw : http.Header) (req : http.Request) :
  originHeader (receiver (ServeHTTP s ord rw req))
  = http.Get (http.req_Header req) "Origin".
Proof.
  destruct (decide (preflight req)) as [Hp|Hp].
  - by rewrite ServeHTTP_preflight.
  - rewrite ServeHTTP_not_preflight by done. by destruct (next s).
Qed.

(** C1.  [ServeHTTP] answers a preflight request itself: it only adds header
    lines to the response writer and never calls the next handler.  For
    every other request it adds nothing, rewrites the request headers and
    calls the next handler, when there is one, with the rewritten request
    and the response writer as it received it. *)
Theorem ServeHTTP_preflight_is_terminal (s : Header) (ord : list (string * string))
    (rw : http.Header) (req : http.Request) :
  let o := ServeHTTP s ord rw req in
  let req' := modifyRequestHeaders s ord req in
  (preflight req ->
     Forall isRwAdd (trace o)
     /\ (forall n r, NextServeHTTP n r ∉ trace o)
     /\ trace o <> []
     /\ writer o = replay rw (trace o))
  /\ (~ preflight req ->
      match next s with
      | Some n => trace o = [NextServeHTTP n req'] /\ writer o = serve n rw req'
      | None => trace o = [] /\ writer o = rw
      end).
Proof.
  intros o req'. subst o. split.
  - intros Hp. rewrite ServeHTTP_preflight by done. cbn [trace writer].
    match goal with |- Forall _ ?t /\ _ => set (tr := t) end.
    assert (Forall isRwAdd tr) as Hall.
    { subst tr. repeat (apply Forall_app; split);
        repeat case_match; repeat constructor. }
    split; [exact Hall|]. split; [|split].
    + intros n r Hin. rewrite Forall_forall in Hall. exact (Hall _ Hin).
    + subst tr. intros Heq. repeat (apply app_eq_nil in Heq as [_ Heq]).
      discriminate.
    + reflexivity.
  - intros Hp. rewrite ServeHTTP_not_preflight by done.
    by destruct (next s).
Qed.

(** C5.  The answer to a preflight request: the header lines are added in
    the order credentials, allowed headers, allowed methods, allowed origin,
    each under its condition, and then, always and last,
    [Access-Control-Max-Age] with the decimal value of
    [AccessControlMaxAge], which for zero is the string [0]. *)
Theorem preflight_answer_ends_with_max_age (s : Header) (ord : list (string * string))
    (rw : http.Header) (req : http.Request) :
  preflight req ->
  int64_range (AccessControlMaxAge (headers s)) ->
  let o := ServeHTTP s ord rw req in
  let cfg := headers s in
  let allowHeaders := go.Join (AccessControlAllowHeaders cfg) "," in
  let allowMethods := go.Join (AccessControlAllowMethods cfg) "," in
  let allowOrigin := getAllowOrigin (receiver o) in
  let maxAge := go.Itoa (AccessControlMaxAge cfg) in
  trace o =
    (if AccessControlAllowCredentials cfg
     then [RwAdd "Access-Control-Allow-Credentials" "true"] else [])
    ++ (if decide (allowHeaders <> "")
        then [RwAdd "Access-Control-Allow-Headers" allowHeaders] else [])
    ++ (if decide (allowMethods <> "")
        then [RwAdd "Access-Control-Allow-Methods" allowMethods] else [])
    ++ (if decide (allowOrigin <> "")
        then [RwAdd "Access-Control-Allow-Origin" allowOrigin] else [])
    ++ [RwAdd "Access-Control-Max-Age" maxAge]
  /\ writer o = replay rw (trace o)
  /\ writer o !! "Access-Control-Max-Age"
      = Some (default [] (rw !! "Access-Control-Max-Age") ++ [maxAge])
  /\ (AccessControlMaxAge cfg = 0%Z -> maxAge = "0")
  /\ (allowHeaders <> "" -> AccessControlAllowHeaders cfg <> [])
  /\ (allowMethods <> "" -> AccessControlAllowMethods cfg <> []).
Proof.
  intros Hp Hrange o cfg allowHeaders allowMethods allowOrigin maxAge.
  subst allowOrigin o. rewrite ServeHTTP_preflight by done.
  cbn [trace writer receiver]. rewrite (int_int64 _ Hrange).
  fold cfg allowHeaders allowMethods maxAge.
  split; [reflexivity|]. split; [reflexivity|]. split; [|split; [|split]].
  - destruct (AccessControlAllowCredentials cfg);
      destruct (decide (allowHeaders <> ""));
      destruct (decide (allowMethods <> ""));
      destruct (decide (getAllowOrigin _ <> ""));
      cbn [app replay foldl]; rewrite !Add_lookup;
      change (textproto.CanonicalMIMEHeaderKey "Access-Control-Max-Age")
        with "Access-Control-Max-Age";
      change (textproto.CanonicalMIMEHeaderKey "Access-Control-Allow-Credentials")
        with "Access-Control-Allow-Credentials";
      change (textproto.CanonicalMIMEHeaderKey "Access-Control-Allow-Headers")
        with "Access-Control-Allow-Headers";
      change (textproto.CanonicalMIMEHeaderKey "Access-Control-Allow-Methods")
        with "Access-Control-Allow-Methods";
      change (textproto.CanonicalMIMEHeaderKey "Access-Control-Allow-Origin")
        with "Access-Control-Allow-Origin";
      rewrite decide_True by reflexivity;
      repeat (rewrite decide_False by discriminate);
      reflexivity.
  - subst maxAge. intros ->. reflexivity.
  - apply Join_nonempty.
  - apply Join_nonempty.
Qed.

(** ** Two goroutines in [ServeHTTP] *)

(** One goroutine alone does what [ServeHTTP] does. *)
Lemma run_alone (s : Header) (ord : list (string * string))
    (rw : http.Header) (req : http.Request) (g : goroutine) :
  let o := ServeHTTP s ord rw req in
  run [true; true] ord s (AtEntry rw req) g
  = (receiver o, Returned (writer o) (trace o), g).
Proof. reflexivity. Qed.

(** When the second request stores its origin between the two parts of the
    first call, the answer to the first request names the origin of the
    second. *)
Lemma run_interleaved (s : Header) (ord : list (string * string))
    (rwA rwB : http.Header) (reqA reqB : http.Request) :
  AccessControlAllowOrigin (headers s) = "origin-list-or-null" ->
  preflight reqA -> preflight reqB ->
  exists s' wA trA gB,
    run [true; false; true; false] ord s (AtEntry rwA reqA) (AtEntry rwB reqB)
    = (s', Returned wA trA, gB)
    /\ RwAdd "Access-Control-Allow-Origin" (http.Get (http.req_Header reqB) "Origin")
       ∈ trA.
Proof.
  intros Hpol (HmA & HacmA & HachA & HoA) (HmB & HacmB & HachB & HoB).
  eexists _, _, _, _. split; [reflexivity|].
  cbv beta iota zeta delta [ServeHTTP_load fst snd receiver].
  cbn [next headers].
  set (sB := mkHeader (next s) (headers s) (http.Get (http.req_Header reqB) "Origin")).
  assert (getAllowOrigin sB = http.Get (http.req_Header reqB) "Origin") as Hao.
  { unfold getAllowOrigin. cbn [headers originHeader sB].
    rewrite Hpol. rewrite decide_True by reflexivity. by rewrite decide_False. }
  unfold ServeHTTP_respond.
  rewrite decide_True by done. cbv zeta. cbn [trace].
  rewrite Hao.
  rewrite (decide_True (P := http.Get (http.req_Header reqB) "Origin" <> "")) by done.
  unfold rwAdd. cbn [snd].
  apply elem_of_app. left. apply elem_of_app. right.
  apply list_elem_of_here.
Qed.

(** * Further properties of the package *)

Local Abbreviation event := (@event SecureOptions Backend).

(** Membership in a list that is written out. *)
Ltac in_list := repeat first [apply list_elem_of_here | apply list_elem_of_further].

(** ** [New]: the order of the chain *)

(** [New] puts the [Header] outermost and the secure-header handler between
    it and [next]: with both kinds of policy the chain is [Header], secure,
    [next]; with the secure policy alone it is secure, [next]; with a custom
    or CORS policy alone it is [Header], [next].  The [Header] starts with an
    empty stored origin and the policy it was given. *)
Theorem New_chain_order (nxt : option Handler) (config : Headers) (name : string) :
  let secure := secureHeaderHandler nxt (SecureFields config) in
  (HasSecureHeadersDefined config = true ->
   HasCustomHeadersDefined config || HasCorsHeadersDefined config = true ->
   New nxt config name
   = inr (headersHandler name
            (Some (HeaderHandler (mkHeader (Some secure) config "")))))
  /\ (HasSecureHeadersDefined config = true ->
      HasCustomHeadersDefined config || HasCorsHeadersDefined config = false ->
      New nxt config name = inr (headersHandler name (Some secure)))
  /\ (HasSecureHeadersDefined config = false ->
      HasCustomHeadersDefined config || HasCorsHeadersDefined config = true ->
      New nxt config name
      = inr (headersHandler name (Some (HeaderHandler (mkHeader nxt config ""))))).
Proof.
  unfold New, newSecure, NewHeader. cbv zeta.
  destruct (HasSecureHeadersDefined config), (HasCustomHeadersDefined config),
    (HasCorsHeadersDefined config); cbn;
    repeat split; intros; try discriminate; reflexivity.
Qed.

(** ** [ServeHTTP]: one request after the other *)

(** [ServeHTTP] writes the stored origin before it reads it: what it does
    does not depend on the origin an earlier request left in the receiver,
    and it leaves the receiver with the same next handler and policy and
    with the origin of this request.  So two requests served one after the
    other, in either order, are each answered as if served alone. *)
Theorem ServeHTTP_ignores_stored_origin (nxt : option Handler) (cfg : Headers)
    (stored1 stored2 : string) (ord : list (string * string))
    (rwA rwB : http.Header) (reqA reqB : http.Request) :
  let s1 := mkHeader nxt cfg stored1 in
  let s2 := mkHeader nxt cfg stored2 in
  let oA := ServeHTTP s1 ord rwA reqA in
  let oB := ServeHTTP s1 ord rwB reqB in
  ServeHTTP s2 ord rwA reqA = oA
  /\ receiver oA = mkHeader nxt cfg (http.Get (http.req_Header reqA) "Origin")
  /\ run [true; true; false; false] ord s1 (AtEntry rwA reqA) (AtEntry rwB reqB)
     = (receiver oB, Returned (writer oA) (trace oA), Returned (writer oB) (trace oB))
  /\ run [false; false; true; true] ord s1 (AtEntry rwA reqA) (AtEntry rwB reqB)
     = (receiver oA, Returned (writer oA) (trace oA), Returned (writer oB) (trace oB)).
Proof.
  intros s1 s2 oA oB.
  assert (forall rw req,
            receiver (ServeHTTP s1 ord rw req)
            = mkHeader nxt cfg (http.Get (http.req_Header req) "Origin")) as Hrec.
  { intros rw req. destruct (decide (preflight req)) as [Hp|Hp].
    - by rewrite ServeHTTP_preflight.
    - rewrite ServeHTTP_not_preflight by done. cbn [next]. by destruct nxt. }
  split; [reflexivity|]. split; [apply Hrec|].
  split.
  - change (run [true; true; false; false] ord s1 (AtEntry rwA reqA) (AtEntry rwB reqB))
      with (let o := ServeHTTP (receiver oA) ord rwB reqB in
            (receiver o, Returned (writer oA) (trace oA), Returned (writer o) (trace o))).
    cbv zeta. subst oA. rewrite Hrec. reflexivity.
  - change (run [false; false; true; true] ord s1 (AtEntry rwA reqA) (AtEntry rwB reqB))
      with (let o := ServeHTTP (receiver oB) ord rwA reqA in
            (receiver o, Returned (writer o) (trace o), Returned (writer oB) (trace oB))).
    cbv zeta. subst oB. rewrite Hrec. reflexivity.
Qed.

(** ** [ServeHTTP]: the answer to a preflight request *)

(** Replaying a trace appends, under each key, the values the trace adds
    there. *)
Lemma replay_lookup (tr : list event) :
  forall (rw : http.Header) (k : string),
    replay rw tr !! k =
    match linesFor k tr with
    | [] => rw !! k
    | added => Some (default [] (rw !! k) ++ added)
    end.
Proof.
  unfold replay.
  induction tr as [|[key value|n r] tr IH]; intros rw k; cbn [foldl linesFor].
  - reflexivity.
  - rewrite IH, Add_lookup. case_decide as Hk.
    + cbn [default]. destruct (linesFor k tr); [reflexivity|].
      unfold id. by rewrite <- app_assoc.
    + reflexivity.
  - apply IH.
Qed.

Lemma linesFor_app (k : string) (tr1 tr2 : list event) :
  linesFor k (tr1 ++ tr2) = linesFor k tr1 ++ linesFor k tr2.
Proof.
  induction tr1 as [|[key value|n r] tr1 IH]; cbn [app linesFor].
  - reflexivity.
  - case_decide; by rewrite IH.
  - exact IH.
Qed.

Lemma linesFor_one (k key value : string) :
  linesFor k [RwAdd key value : event] =
  if decide (textproto.CanonicalMIMEHeaderKey key = k) then [value] else [].
Proof. reflexivity. Qed.

(** The trace of a preflight answer, as a list that depends on the policy and
    on the origin of the request only. *)
Lemma preflight_trace (s : Header) (ord : list (string * string))
    (rw : http.Header) (req : http.Request) :
  preflight req ->
  exists cred hdrs meths orig,
    trace (ServeHTTP s ord rw req)
    = cred ++ hdrs ++ meths ++ orig
      ++ [RwAdd "Access-Control-Max-Age"
            (go.Itoa (go.int (AccessControlMaxAge (headers s))))]
    /\ writer (ServeHTTP s ord rw req) = replay rw (trace (ServeHTTP s ord rw req))
    /\ (cred = [] \/ cred = [RwAdd "Access-Control-Allow-Credentials" "true"])
    /\ (hdrs = [] \/ exists v, hdrs = [RwAdd "Access-Control-Allow-Headers" v])
    /\ (meths = [] \/ exists v, meths = [RwAdd "Access-Control-Allow-Methods" v])
    /\ orig =
       let allowOrigin :=
         getAllowOrigin (mkHeader (next s) (headers s)
                           (http.Get (http.req_Header req) "Origin")) in
       if decide (allowOrigin <> "")
       then [RwAdd "Access-Control-Allow-Origin" allowOrigin] else [].
Proof.
  intros Hp. rewrite ServeHTTP_preflight by done. cbn [trace writer].
  eexists _, _, _, _. split; [reflexivity|]. split; [reflexivity|].
  split; [destruct (AccessControlAllowCredentials _); auto|].
  split; [case_decide; eauto|]. split; [case_decide; eauto|]. reflexivity.
Qed.


(** The answer to a preflight request only adds header lines: under every
    key the response writer keeps the lines it had, in front of the added
    ones, and a key that is not one of the five CORS keys of the answer is
    left as it was. *)
Theorem preflight_keeps_existing_lines (s : Header) (ord : list (string * string))
    (rw : http.Header) (req : http.Request) :
  preflight req ->
  let o := ServeHTTP s ord rw req in
  (forall k old, rw !! k = Some old ->
     writer o !! k = Some (old ++ linesFor k (trace o)))
  /\ (forall k, k ∉ preflightKeys -> writer o !! k = rw !! k)
  /\ writer o !! "Access-Control-Max-Age"
     = Some (default [] (rw !! "Access-Control-Max-Age")
             ++ linesFor "Access-Control-Max-Age" (trace o)).
Proof.
  intros Hp o.
  destruct (preflight_trace s ord rw req Hp)
    as (cred & hdrs & meths & orig & Htr & Hw & Hc & Hh & Hm & Ho).
  fold o in Htr, Hw. split; [|split].
  - intros k old Hold. rewrite Hw, replay_lookup, Hold. cbn [default].
    destruct (linesFor k (trace o)); [by rewrite app_nil_r | reflexivity].
  - intros k Hk. rewrite Hw, replay_lookup.
    assert (linesFor k (trace o) = []) as ->; [|reflexivity].
    assert (forall key v, key ∈ preflightKeys ->
              textproto.CanonicalMIMEHeaderKey key = key ->
              linesFor k [RwAdd key v : event] = []) as Hone.
    { intros key v Hin Hcanon. rewrite linesFor_one, Hcanon.
      rewrite decide_False; [reflexivity|]. intros ->. by apply Hk. }
    rewrite Htr, !linesFor_app.
    assert (linesFor k cred = []) as ->.
    { destruct Hc as [->| ->]; [reflexivity|].
      apply Hone; [unfold preflightKeys; in_list | reflexivity]. }
    assert (linesFor k hdrs = []) as ->.
    { destruct Hh as [->|[? ->]]; [reflexivity|].
      apply Hone; [unfold preflightKeys; in_list | reflexivity]. }
    assert (linesFor k meths = []) as ->.
    { destruct Hm as [->|[? ->]]; [reflexivity|].
      apply Hone; [unfold preflightKeys; in_list | reflexivity]. }
    assert (linesFor k orig = []) as ->.
    { rewrite Ho. cbv zeta. case_decide; [|reflexivity].
      apply Hone; [unfold preflightKeys; in_list | reflexivity]. }
    cbn [app]. apply Hone; [unfold preflightKeys; in_list | reflexivity].
  - rewrite Hw, replay_lookup.
    assert (linesFor "Access-Control-Max-Age" (trace o) <> []) as Hne.
    { rewrite Htr, !linesFor_app, linesFor_one.
      change (textproto.CanonicalMIMEHeaderKey "Access-Control-Max-Age")
        with "Access-Control-Max-Age".
      rewrite decide_True by reflexivity.
      intros Heq. repeat (apply app_eq_nil in Heq as [_ Heq]). discriminate. }
    by destruct (linesFor "Access-Control-Max-Age" (trace o)).
Qed.

(** ** The custom headers, read back *)

(** With names that stay distinct once canonical, each entry of the mapping
    decides the header of its canonical name, whatever the order of the
    visit. *)
Lemma customHeaders_entry (m : gmap string string) (ord : list (string * string))
    (h : http.Header) (name value : string) :
  go.range_order m ord -> canonical_names_distinct m ->
  m !! name = Some value ->
  customHeaders h ord !! textproto.CanonicalMIMEHeaderKey name = stored value.
Proof.
  intros Hord Hdist Hname. rewrite customHeaders_lookup.
  rewrite (lastWrite_NoDup ord name value); [reflexivity | |].
  - by eapply range_order_NoDup.
  - unfold go.range_order in Hord. rewrite Hord. by apply elem_of_map_to_list.
Qed.

Lemma customHeaders_avoid (m : gmap string string) (ord : list (string * string))
    (h : http.Header) (k : string) :
  go.range_order m ord -> names_avoid m k -> customHeaders h ord !! k = h !! k.
Proof.
  intros Hord Havoid. rewrite customHeaders_lookup.
  by rewrite (range_order_avoid _ _ _ Hord Havoid).
Qed.

(** [modifyRequestHeaders], when the names of the custom request headers
    stay distinct once canonical: the method is kept; a header configured
    with a value reads back that value, alone, under any spelling of its
    name that the mapping uses; a header configured with the empty value is
    gone; every other header is as it was. *)
Theorem modifyRequestHeaders_reads_back (s : Header) (ord : list (string * string))
    (req : http.Request) :
  go.range_order (CustomRequestHeaders (headers s)) ord ->
  canonical_names_distinct (CustomRequestHeaders (headers s)) ->
  let req' := modifyRequestHeaders s ord req in
  http.Method req' = http.Method req
  /\ (forall name value,
        CustomRequestHeaders (headers s) !! name = Some value -> value <> "" ->
        http.req_Header req' !! textproto.CanonicalMIMEHeaderKey name = Some [value]
        /\ http.Get (http.req_Header req') name = value)
  /\ (forall name,
        CustomRequestHeaders (headers s) !! name = Some "" ->
        http.req_Header req' !! textproto.CanonicalMIMEHeaderKey name = None
        /\ http.Get (http.req_Header req') name = "")
  /\ (forall k, names_avoid (CustomRequestHeaders (headers s)) k ->
        http.req_Header req' !! k = http.req_Header req !! k).
Proof.
  intros Hord Hdist req'. subst req'. unfold modifyRequestHeaders.
  cbn [http.Method http.req_Header].
  split; [reflexivity|]. split; [|split].
  - intros name value Hname Hv.
    pose proof (customHeaders_entry _ _ (http.req_Header req) _ _ Hord Hdist Hname) as Hl.
    unfold stored in Hl. rewrite decide_False in Hl by done.
    split; [exact Hl | by apply Get_of_lookup].
  - intros name Hname.
    pose proof (customHeaders_entry _ _ (http.req_Header req) _ _ Hord Hdist Hname) as Hl.
    split; [exact Hl|]. unfold http.Get. by rewrite Hl.
  - intros k Havoid. by eapply customHeaders_avoid.
Qed.

(** [ModifyResponseHeaders], when the names of the custom response headers
    stay distinct once canonical: a custom header whose canonical name is
    not one of the four CORS keys leaves with its configured value, alone,
    or is gone when that value is empty; a key that is neither a CORS key
    nor a custom name is as the response had it. *)
Theorem ModifyResponseHeaders_custom_and_frame (s : Header)
    (ord : list (string * string)) (res : http.Response) :
  go.range_order (CustomResponseHeaders (headers s)) ord ->
  canonical_names_distinct (CustomResponseHeaders (headers s)) ->
  let out := http.res_Header (ModifyResponseHeaders s ord res).2 in
  (forall name value,
     CustomResponseHeaders (headers s) !! name = Some value ->
     textproto.CanonicalMIMEHeaderKey name ∉ corsResponseKeys ->
     out !! textproto.CanonicalMIMEHeaderKey name
     = if decide (value = "") then None else Some [value])
  /\ (forall k, k ∉ corsResponseKeys ->
      names_avoid (CustomResponseHeaders (headers s)) k ->
      out !! k = http.res_Header res !! k)
  /\ http.res_Request (ModifyResponseHeaders s ord res).2 = http.res_Request res.
Proof.
  intros Hord Hdist out.
  assert (forall k, k ∉ corsResponseKeys ->
            out !! k = customHeaders (http.res_Header res) ord !! k) as Hframe.
  { intros k Hk. subst out. rewrite ModifyResponseHeaders_lookup. cbv zeta.
    rewrite decide_False by (intros [-> _]; apply Hk; unfold corsResponseKeys; in_list).
    rewrite decide_False by (intros [-> _]; apply Hk; unfold corsResponseKeys; in_list).
    rewrite decide_False by (intros [-> _]; apply Hk; unfold corsResponseKeys; in_list).
    rewrite decide_False by (intros [-> _]; apply Hk; unfold corsResponseKeys; in_list).
    reflexivity. }
  split; [|split].
  - intros name value Hname Hk. rewrite (Hframe _ Hk).
    by eapply customHeaders_entry.
  - intros k Hk Havoid. rewrite (Hframe _ Hk). by eapply customHeaders_avoid.
  - reflexivity.
Qed.

(** ** [ModifyResponseHeaders]: the CORS keys *)

(** The allowed origin is written exactly when the configured policy is one
    of the two strings [origin-list-or-null] and [*], compared as they are
    spelled.  It is then the only line of [Access-Control-Allow-Origin],
    whatever the response and the custom headers had there.  Under any other
    policy string [Access-Control-Allow-Origin] and [Vary] stay as the
    custom-header loop left them. *)
Theorem allow_origin_written_iff_policy_known (s : Header)
    (ord : list (string * string)) (res : http.Response) :
  let policy := AccessControlAllowOrigin (headers s) in
  let h1 := customHeaders (http.res_Header res) ord in
  let out := http.res_Header (ModifyResponseHeaders s ord res).2 in
  (getAllowOrigin s <> "" <-> policy = "origin-list-or-null" \/ policy = "*")
  /\ (policy = "origin-list-or-null" \/ policy = "*" ->
      out !! "Access-Control-Allow-Origin" = Some [getAllowOrigin s])
  /\ (policy <> "origin-list-or-null" -> policy <> "*" ->
      out !! "Access-Control-Allow-Origin" = h1 !! "Access-Control-Allow-Origin"
      /\ out !! "Vary" = h1 !! "Vary").
Proof.
  intros policy h1 out.
  assert (getAllowOrigin s <> "" <-> policy = "origin-list-or-null" \/ policy = "*")
    as Hiff.
  { unfold getAllowOrigin. fold policy.
    destruct (decide (policy = "origin-list-or-null")) as [Ho|Ho].
    - split; [auto|]. intros _. case_decide as He; [discriminate | exact He].
    - destruct (decide (policy = "*")) as [Hs|Hs].
      + split; [auto | discriminate].
      + split; [done | intros [?|?]; done]. }
  split; [exact Hiff|]. split.
  - intros Hpol. apply Hiff in Hpol. subst out.
    rewrite ModifyResponseHeaders_lookup. cbv zeta.
    rewrite decide_False by (intros [? _]; discriminate).
    rewrite decide_False by (intros [? _]; discriminate).
    rewrite decide_False by (intros [? _]; discriminate).
    by rewrite decide_True.
  - intros H1 H2.
    assert (getAllowOrigin s = "") as Hao.
    { destruct (decide (getAllowOrigin s = "")) as [|Hne]; [done|].
      apply Hiff in Hne as [?|?]; done. }
    subst out. split.
    + rewrite ModifyResponseHeaders_lookup. cbv zeta.
      rewrite decide_False by (intros [? _]; discriminate).
      rewrite decide_False by (intros [? _]; discriminate).
      rewrite decide_False by (intros [? _]; discriminate).
      by rewrite decide_False by (intros [_ ?]; done).
    + rewrite ModifyResponseHeaders_Vary. cbv zeta.
      by rewrite decide_False by (intros [? _]; done).
Qed.

Lemma Join_empty_iff (elems : list string) :
  go.Join elems "," = "" <-> elems = [] \/ elems = [""].
Proof.
  destruct elems as [|a [|b elems]].
  - split; auto.
  - cbn. split; [intros ->; auto | intros [?|[= ->]]; done].
  - split.
    + change (go.Join (a :: b :: elems) ",")
        with (a +:+ "," +:+ go.Join (b :: elems) ",").
      destruct a; discriminate.
    + intros [?|?]; discriminate.
Qed.

(** [Access-Control-Expose-Headers] is tested on the joined string, not on
    the list: it is written, as one comma-joined line, unless the list is
    empty or holds the empty string alone; in these two cases the key stays
    as the custom-header loop left it. *)
Theorem expose_headers_written_unless_blank (s : Header)
    (ord : list (string * string)) (res : http.Response) :
  let elems := AccessControlExposeHeaders (headers s) in
  let h1 := customHeaders (http.res_Header res) ord in
  let out := http.res_Header (ModifyResponseHeaders s ord res).2 in
  (elems = [] \/ elems = [""] ->
     out !! "Access-Control-Expose-Headers" = h1 !! "Access-Control-Expose-Headers")
  /\ (elems <> [] -> elems <> [""] ->
      out !! "Access-Control-Expose-Headers" = Some [go.Join elems ","]).
Proof.
  intros elems h1 out. subst out. rewrite ModifyResponseHeaders_lookup. cbv zeta.
  fold elems. split.
  - intros Hblank. apply Join_empty_iff in Hblank.
    rewrite decide_False by (intros [_ ?]; done).
    rewrite decide_False by (intros [? _]; discriminate).
    rewrite decide_False by (intros [? _]; discriminate).
    by rewrite decide_False by (intros [? _]; discriminate).
  - intros H1 H2. rewrite decide_True; [reflexivity|].
    split; [reflexivity|]. intros Hj. apply Join_empty_iff in Hj as [?|?]; done.
Qed.

(** A custom response header that is a spelling of [Vary] takes the place
    of the [Vary] the response came with: with [AddVaryHeader] set and a
    non-empty allowed origin, [Vary] leaves as the configured value followed
    by [,Origin], or as [Origin] when the configured value is empty,
    whatever the response had there. *)
Theorem custom_Vary_replaces_response_Vary (s : Header)
    (ord : list (string * string)) (res : http.Response) (name value : string) :
  go.range_order (CustomResponseHeaders (headers s)) ord ->
  canonical_names_distinct (CustomResponseHeaders (headers s)) ->
  CustomResponseHeaders (headers s) !! name = Some value ->
  textproto.CanonicalMIMEHeaderKey name = "Vary" ->
  AddVaryHeader (headers s) = true ->
  getAllowOrigin s <> "" ->
  http.res_Header (ModifyResponseHeaders s ord res).2 !! "Vary"
  = Some [if decide (value = "") then "Origin" else value +:+ ",Origin"].
Proof.
  intros Hord Hdist Hname Hcanon Hadd Hao.
  rewrite ModifyResponseHeaders_Vary. cbv zeta. rewrite decide_True by done.
  pose proof (customHeaders_entry _ _ (http.res_Header res) _ _ Hord Hdist Hname) as Hl.
  rewrite Hcanon in Hl.
  assert (http.Get (customHeaders (http.res_Header res) ord) "Vary" = value) as ->.
  { unfold http.Get.
    change (textproto.CanonicalMIMEHeaderKey "Vary") with "Vary".
    rewrite Hl. unfold stored. by case_decide. }
  unfold withOrigin. destruct (decide (value = "")) as [Hv|Hv].
  - by rewrite decide_False by (intros ?; done).
  - by rewrite decide_True.
Qed.

Lemma ModifyResponseHeaders_shape (s : Header) (ord : list (string * string))
    (res : http.Response) :
  ModifyResponseHeaders s ord res
  = (None, http.mkResponse (http.res_Header (ModifyResponseHeaders s ord res).2)
             (http.res_Request res)).
Proof. reflexivity. Qed.

(** A second run of [ModifyResponseHeaders] changes nothing in three cases:
    [AddVaryHeader] is unset, or the allowed origin resolves to the empty
    string, or a custom response header is a spelling of [Vary]; the two
    runs visit the custom response headers in the same order, or the names
    of these stay distinct once canonical. *)
Theorem ModifyResponseHeaders_idempotent_cases (s : Header)
    (ord1 ord2 : list (string * string)) (res : http.Response) :
  go.range_order (CustomResponseHeaders (headers s)) ord1 ->
  go.range_order (CustomResponseHeaders (headers s)) ord2 ->
  ord1 = ord2 \/ canonical_names_distinct (CustomResponseHeaders (headers s)) ->
  AddVaryHeader (headers s) = false \/ getAllowOrigin s = ""
  \/ (exists name, is_Some (CustomResponseHeaders (headers s) !! name)
                   /\ textproto.CanonicalMIMEHeaderKey name = "Vary") ->
  ModifyResponseHeaders s ord2 (ModifyResponseHeaders s ord1 res).2
  = ModifyResponseHeaders s ord1 res.
Proof.
  intros H1 H2 Hagree Hcase.
  rewrite (ModifyResponseHeaders_shape s ord2).
  rewrite (ModifyResponseHeaders_shape s ord1) at 3.
  f_equal. cbn [snd http.res_Request].
  f_equal. apply map_eq. intros k.
  destruct (decide (k = "Vary")) as [->|Hk];
    [|by apply ModifyResponseHeaders_twice_lookup].
  set (once := http.res_Header (ModifyResponseHeaders s ord1 res).2).
  assert (customHeaders once ord2 !! "Vary"
          = default (once !! "Vary") (lastWrite "Vary" ord1)) as Hc2.
  { rewrite customHeaders_lookup.
    by rewrite (lastWrite_agree _ _ _ H1 H2 Hagree). }
  assert (once !! "Vary" =
          if decide (getAllowOrigin s <> "" /\ AddVaryHeader (headers s) = true)
          then Some [withOrigin (http.Get (customHeaders (http.res_Header res) ord1) "Vary")]
          else default (http.res_Header res !! "Vary") (lastWrite "Vary" ord1))
    as Honce.
  { subst once. rewrite ModifyResponseHeaders_Vary. cbv zeta.
    by rewrite customHeaders_lookup. }
  rewrite ModifyResponseHeaders_Vary. cbv zeta. fold once.
  rewrite Hc2, Honce.
  destruct (decide (getAllowOrigin s <> "" /\ AddVaryHeader (headers s) = true))
    as [[Hao Hadd]|Hoff].
  - destruct Hcase as [Hcase|[Hcase|(name & [value Hname] & Hcanon)]];
      [congruence | done |].
    destruct (lastWrite "Vary" ord1) as [r|] eqn:Hlw.
    + do 3 f_equal. apply Get_lookup.
      change (textproto.CanonicalMIMEHeaderKey "Vary") with "Vary".
      rewrite Hc2. cbn [default].
      rewrite customHeaders_lookup, Hlw. reflexivity.
    + exfalso. apply lastWrite_None in Hlw. rewrite Forall_forall in Hlw.
      apply (Hlw (name, value)); [|exact Hcanon].
      unfold go.range_order in H1. rewrite H1. by apply elem_of_map_to_list.
  - by destruct (lastWrite "Vary" ord1).
Qed.

(** ** Two goroutines: the preflight test *)

(** The test for a preflight request reads the shared field as well.  When a
    request without [Origin] stores its empty origin between the two parts of
    the call for a preflight request, the preflight request is not answered:
    it is passed, with the custom request headers applied, to the next
    handler, and nothing is added to its response writer by [ServeHTTP]. *)
Theorem interleaved_preflight_is_forwarded (s : Header) (ord : list (string * string))
    (rwA rwB : http.Header) (reqA reqB : http.Request) (n : Handler) :
  preflight reqA ->
  http.Get (http.req_Header reqB) "Origin" = "" ->
  next s = Some n ->
  let reqA' := modifyRequestHeaders s ord reqA in
  exists s' gB,
    run [true; false; true; false] ord s (AtEntry rwA reqA) (AtEntry rwB reqB)
    = (s', Returned (serve n rwA reqA') [NextServeHTTP n reqA'], gB).
Proof.
  intros Hp Hempty Hnext reqA'.
  set (sB := mkHeader (next s) (headers s) (http.Get (http.req_Header reqB) "Origin")).
  assert (forall m h,
            ServeHTTP_respond sB ord m h rwA reqA
            = mkOutcome sB (serve n rwA reqA') [NextServeHTTP n reqA']) as HoA.
  { intros m h. unfold ServeHTTP_respond.
    rewrite decide_False by (intros (_ & _ & Ho & _); by apply Ho).
    cbn [next sB]. rewrite Hnext. reflexivity. }
  eexists _, _. unfold run, step, ServeHTTP_load. cbv beta iota zeta.
  cbn [next headers]. fold sB. rewrite HoA. cbn [receiver writer trace].
  reflexivity.
Qed.

(** ** [buildHeaders]: errors *)


End properties.

(** * Checks on concrete inputs *)

Lemma NoDup_by_computation (l : list string) : bool_decide (NoDup l) = true -> NoDup l.
Proof. intros H. by apply bool_decide_eq_true in H. Qed.




Lemma preflight_from_a : preflight (preflight_from "http://a").
Proof. unfold preflight. vm_compute. repeat split; discriminate. Qed.

Lemma preflight_from_b : preflight (preflight_from "http://b").
Proof. unfold preflight. vm_compute. repeat split; discriminate. Qed.

Lemma preflight_answer_ends_with_max_age_witness :
  preflight (preflight_from "http://a")
  /\ int64_range (AccessControlMaxAge (headers (fresh policy_reflect)))
  /\ trace (ServeHTTP serve_nothing (fresh policy_reflect) [] ∅ (preflight_from "http://a"))
     = [RwAdd "Access-Control-Allow-Credentials" "true";
        RwAdd "Access-Control-Allow-Headers" "X-Foo,X-Bar";
        RwAdd "Access-Control-Allow-Methods" "GET,POST";
        RwAdd "Access-Control-Allow-Origin" "http://a";
        RwAdd "Access-Control-Max-Age" "0"]
  /\ writer (ServeHTTP serve_nothing (fresh policy_reflect) [] ∅ (preflight_from "http://a"))
       !! "Access-Control-Max-Age" = Some ["0"].
Proof.
  pose proof preflight_from_a as Hp.
  assert (int64_range (AccessControlMaxAge (headers (fresh policy_reflect)))) as Hr
    by (vm_compute; split; [discriminate | reflexivity]).
  split; [exact Hp|]. split; [exact Hr|].
  destruct (preflight_answer_ends_with_max_age serve_nothing (fresh policy_reflect)
              [] ∅ (preflight_from "http://a") Hp Hr) as (Htr & _ & Hma & _).
  split; [exact Htr | exact Hma].
Defined.

Lemma credentials_header_unconditional_witness :
  AccessControlAllowCredentials (headers (fresh policy_explicit)) = true
  /\ getAllowOrigin (fresh policy_explicit) = ""
  /\ http.res_Header (ModifyResponseHeaders (fresh policy_explicit) [] response_plain).2
       !! "Access-Control-Allow-Credentials" = Some ["true"]
  /\ http.res_Header (ModifyResponseHeaders (fresh policy_explicit) [] response_plain).2
       !! "Access-Control-Allow-Origin" = None.
Proof.
  split; [reflexivity|]. split; [reflexivity|]. split.
  - apply (credentials_header_unconditional (fresh policy_explicit) [] response_plain).
    reflexivity.
  - vm_compute. reflexivity.
Defined.

Lemma policy_custom_request_order (ord : list (string * string)) :
  ord ≡ₚ [("X-Trace", "on"); ("x-powered-by", "")] ->
  go.range_order (CustomRequestHeaders policy_custom) ord.
Proof.
  intros Hperm. unfold go.range_order. rewrite Hperm.
  apply (range_order_list_to_map [("X-Trace", "on"); ("x-powered-by", "")]).
  apply NoDup_by_computation. vm_compute. reflexivity.
Qed.

Lemma policy_custom_response_order (ord : list (string * string)) :
  ord ≡ₚ [("X-Frame-Options", "deny"); ("server", "")] ->
  go.range_order (CustomResponseHeaders policy_custom) ord.
Proof.
  intros Hperm. unfold go.range_order. rewrite Hperm.
  apply (range_order_list_to_map [("X-Frame-Options", "deny"); ("server", "")]).
  apply NoDup_by_computation. vm_compute. reflexivity.
Qed.

Lemma policy_custom_names_distinct :
  canonical_names_distinct (CustomRequestHeaders policy_custom)
  /\ canonical_names_distinct (CustomResponseHeaders policy_custom).
Proof.
  split.
  - apply (canonical_names_distinct_NoDup _ [("X-Trace", "on"); ("x-powered-by", "")]).
    + by apply policy_custom_request_order.
    + apply NoDup_by_computation. vm_compute. reflexivity.
  - apply (canonical_names_distinct_NoDup _ [("X-Frame-Options", "deny"); ("server", "")]).
    + by apply policy_custom_response_order.
    + apply NoDup_by_computation. vm_compute. reflexivity.
Qed.

Lemma custom_headers_idempotent_witness :
  let q1 := [("X-Trace", "on"); ("x-powered-by", "")] in
  let q2 := [("x-powered-by", ""); ("X-Trace", "on")] in
  let p1 := [("X-Frame-Options", "deny"); ("server", "")] in
  let p2 := [("server", ""); ("X-Frame-Options", "deny")] in
  go.range_order (CustomRequestHeaders policy_custom) q1
  /\ go.range_order (CustomRequestHeaders policy_custom) q2
  /\ canonical_names_distinct (CustomRequestHeaders policy_custom)
  /\ go.range_order (CustomResponseHeaders policy_custom) p1
  /\ go.range_order (CustomResponseHeaders policy_custom) p2
  /\ canonical_names_distinct (CustomResponseHeaders policy_custom)
  /\ modifyRequestHeaders (fresh policy_custom) q2
       (modifyRequestHeaders (fresh policy_custom) q1 (get_from "http://a"))
     = modifyRequestHeaders (fresh policy_custom) q1 (get_from "http://a")
  /\ customHeaders (customHeaders (http.res_Header response_vary) p1) p2
     = customHeaders (http.res_Header response_vary) p1
  /\ http.req_Header (modifyRequestHeaders (fresh policy_custom) q1 (get_from "http://a"))
       !! "X-Powered-By" = None.
Proof.
  intros q1 q2 p1 p2.
  assert (go.range_order (CustomRequestHeaders policy_custom) q1) as Hq1
    by (by apply policy_custom_request_order).
  assert (go.range_order (CustomRequestHeaders policy_custom) q2) as Hq2
    by (apply policy_custom_request_order, perm_swap).
  assert (go.range_order (CustomResponseHeaders policy_custom) p1) as Hp1
    by (by apply policy_custom_response_order).
  assert (go.range_order (CustomResponseHeaders policy_custom) p2) as Hp2
    by (apply policy_custom_response_order, perm_swap).
  destruct policy_custom_names_distinct as [Hdq Hdp].
  destruct (custom_headers_idempotent (fresh policy_custom) (get_from "http://a")
              response_vary q1 q2 p1 p2 Hq1 Hq2 (or_intror Hdq) Hp1 Hp2 (or_intror Hdp))
    as (Hreq & Hres & _).
  repeat (split; [assumption|]).
  vm_compute. reflexivity.
Defined.

(** The claim C7 fails for a mapping with the names [x-a] and [X-A]: the
    first run visits [x-a] first and leaves [X-A: 2], the second run visits
    [X-A] first and leaves [X-A: 1]. *)
Lemma custom_headers_order_counterexample :
  let q1 := [("x-a", "1"); ("X-A", "2")] in
  let q2 := [("X-A", "2"); ("x-a", "1")] in
  let once := modifyRequestHeaders (fresh policy_collide) q1 (get_from "http://a") in
  let twice := modifyRequestHeaders (fresh policy_collide) q2 once in
  go.range_order (CustomRequestHeaders policy_collide) q1
  /\ go.range_order (CustomRequestHeaders policy_collide) q2
  /\ http.Get (http.req_Header once) "X-A" = "2"
  /\ http.Get (http.req_Header twice) "X-A" = "1"
  /\ twice <> once.
Proof.
  intros q1 q2 once twice.
  assert (go.range_order (CustomRequestHeaders policy_collide) q1) as Hq1.
  { apply (range_order_list_to_map q1).
    apply NoDup_by_computation. vm_compute. reflexivity. }
  split; [exact Hq1|]. split.
  { unfold go.range_order in *. rewrite <- Hq1. apply perm_swap. }
  assert (http.Get (http.req_Header once) "X-A" = "2") as H1
    by (vm_compute; reflexivity).
  assert (http.Get (http.req_Header twice) "X-A" = "1") as H2
    by (vm_compute; reflexivity).
  split; [exact H1|]. split; [exact H2|].
  intros Heq. rewrite Heq, H1 in H2. discriminate.
Qed.

Lemma buildHeaders_origin_is_null_witness :
  AccessControlAllowOrigin policy_reflect = "origin-list-or-null"
  /\ hasCustom policy_reflect || hasCors policy_reflect = true
  /\ http.Get (http.req_Header (get_from "http://a")) "Origin" = "http://a"
  /\ http.res_Request response_plain = Some (get_from "http://a")
  /\ http.res_Header
       (buildHeaders (Backend := unit) hasSecure hasCustom hasCors secure_nothing
          policy_reflect [] response_plain).2
       !! "Access-Control-Allow-Origin" = Some ["null"].
Proof.
  split; [reflexivity|]. split; [reflexivity|]. split; [reflexivity|].
  split; [reflexivity|].
  destruct (buildHeaders_origin_is_null (Backend := unit) hasSecure hasCustom hasCors
              secure_nothing policy_reflect [] response_plain eq_refl eq_refl)
    as (_ & _ & Hnull & Hbuild).
  rewrite Hbuild. exact Hnull.
Defined.



(** C4.  The origin of a request is kept in the one [Header] of the route.
    Two preflight requests, from [http://a] and from [http://b], are served
    at once under the policy [origin-list-or-null]; the second stores its
    origin before the first goes on.  Both answers allow [http://b], where
    the first request served alone is answered with [http://a]. *)
Theorem concurrent_requests_share_origin :
  let s := fresh policy_reflect in
  let reqA := preflight_from "http://a" in
  let reqB := preflight_from "http://b" in
  http.Get (writer (ServeHTTP serve_nothing s [] ∅ reqA))
    "Access-Control-Allow-Origin" = "http://a"
  /\ originHeader (receiver (ServeHTTP serve_nothing s [] ∅ reqA)) = "http://a"
  /\ match run serve_nothing [true; false; true; false] [] s
             (AtEntry ∅ reqA) (AtEntry ∅ reqB) with
     | (s', Returned wA trA, Returned wB trB) =>
         originHeader s' = "http://b"
         /\ http.Get wA "Access-Control-Allow-Origin" = "http://b"
         /\ http.Get wB "Access-Control-Allow-Origin" = "http://b"
     | _ => False
     end.
Proof. vm_compute. repeat split; reflexivity. Qed.

(** ** Checks of the further properties *)


Lemma preflight_keeps_existing_lines_witness :
  let o := ServeHTTP serve_nothing (fresh policy_reflect) [] writer_used
             (preflight_from "http://a") in
  preflight (preflight_from "http://a")
  /\ writer o !! "Access-Control-Max-Age" = Some ["99"; "0"]
  /\ writer o !! "X-Request-Id" = Some ["7"].
Proof.
  intros o. pose proof preflight_from_a as Hp. split; [exact Hp|].
  destruct (preflight_keeps_existing_lines serve_nothing (fresh policy_reflect) []
              writer_used (preflight_from "http://a") Hp) as (Hold & Hframe & _).
  split.
  - exact (Hold "Access-Control-Max-Age" ["99"] eq_refl).
  - unfold o. rewrite (Hframe "X-Request-Id"); [reflexivity|].
    unfold preflightKeys. intros Hin.
    repeat (apply elem_of_cons in Hin as [Hin|Hin]; [discriminate Hin|]).
    by apply elem_of_nil in Hin.
Defined.

Lemma modifyRequestHeaders_reads_back_witness :
  let q := [("x-powered-by", ""); ("X-Trace", "on")] in
  let req' := modifyRequestHeaders (fresh policy_custom) q (get_from "http://a") in
  go.range_order (CustomRequestHeaders policy_custom) q
  /\ canonical_names_distinct (CustomRequestHeaders policy_custom)
  /\ http.Get (http.req_Header (get_from "http://a")) "X-Powered-By" = "php"
  /\ http.Get (http.req_Header req') "X-Trace" = "on"
  /\ http.Get (http.req_Header req') "x-powered-by" = ""
  /\ http.req_Header req' !! "Origin" = Some ["http://a"].
Proof.
  intros q req'.
  assert (go.range_order (CustomRequestHeaders policy_custom) q) as Hq
    by (apply policy_custom_request_order, perm_swap).
  destruct policy_custom_names_distinct as [Hdq _].
  destruct (modifyRequestHeaders_reads_back (fresh policy_custom) q
              (get_from "http://a") Hq Hdq) as (_ & Hset & Hdel & Hframe).
  split; [exact Hq|]. split; [exact Hdq|]. split; [reflexivity|].
  split; [|split].
  - apply (Hset "X-Trace" "on"); [reflexivity | discriminate].
  - apply (Hdel "x-powered-by"). reflexivity.
  - unfold req'. rewrite (Hframe "Origin"); [reflexivity|].
    apply (names_avoid_Forall _ _ _ Hq). repeat constructor; discriminate.
Defined.

Lemma ModifyResponseHeaders_custom_and_frame_witness :
  let p := [("server", ""); ("X-Frame-Options", "deny")] in
  let out := http.res_Header (ModifyResponseHeaders (fresh policy_custom) p response_vary).2 in
  go.range_order (CustomResponseHeaders policy_custom) p
  /\ canonical_names_distinct (CustomResponseHeaders policy_custom)
  /\ http.res_Header response_vary !! "Server" = Some ["nginx"]
  /\ out !! "Server" = None
  /\ out !! "X-Frame-Options" = Some ["deny"].
Proof.
  intros p out.
  assert (go.range_order (CustomResponseHeaders policy_custom) p) as Hp
    by (apply policy_custom_response_order, perm_swap).
  destruct policy_custom_names_distinct as [_ Hdp].
  destruct (ModifyResponseHeaders_custom_and_frame (fresh policy_custom) p
              response_vary Hp Hdp) as (Hcustom & _ & _).
  assert (forall k : string, k = "Server" \/ k = "X-Frame-Options" ->
            k ∉ corsResponseKeys) as Hnot.
  { intros k Hk Hin. unfold corsResponseKeys in Hin.
    repeat (apply elem_of_cons in Hin as [Hin|Hin];
            [destruct Hk; subst; discriminate Hin|]).
    by apply elem_of_nil in Hin. }
  split; [exact Hp|]. split; [exact Hdp|]. split; [reflexivity|]. split.
  - apply (Hcustom "server" ""); [reflexivity | apply Hnot; by left].
  - apply (Hcustom "X-Frame-Options" "deny"); [reflexivity | apply Hnot; by right].
Defined.

Lemma policy_custom_vary_order :
  go.range_order (CustomResponseHeaders policy_custom_vary) [("Vary", "X")]
  /\ canonical_names_distinct (CustomResponseHeaders policy_custom_vary).
Proof.
  assert (go.range_order (CustomResponseHeaders policy_custom_vary) [("Vary", "X")])
    as Hord by apply range_order_singleton.
  split; [exact Hord|].
  apply (canonical_names_distinct_NoDup _ _ Hord).
  apply NoDup_by_computation. vm_compute. reflexivity.
Qed.

Lemma custom_Vary_replaces_response_Vary_witness :
  go.range_order (CustomResponseHeaders policy_custom_vary) [("Vary", "X")]
  /\ canonical_names_distinct (CustomResponseHeaders policy_custom_vary)
  /\ CustomResponseHeaders policy_custom_vary !! "Vary" = Some "X"
  /\ AddVaryHeader policy_custom_vary = true
  /\ getAllowOrigin (fresh policy_custom_vary) <> ""
  /\ http.res_Header response_vary !! "Vary" = Some ["Accept-Encoding"]
  /\ http.res_Header
       (ModifyResponseHeaders (fresh policy_custom_vary) [("Vary", "X")] response_vary).2
       !! "Vary" = Some ["X,Origin"].
Proof.
  destruct policy_custom_vary_order as [Hord Hdist].
  assert (getAllowOrigin (fresh policy_custom_vary) <> "") as Hao by discriminate.
  split; [exact Hord|]. split; [exact Hdist|]. split; [reflexivity|].
  split; [reflexivity|]. split; [exact Hao|]. split; [reflexivity|].
  exact (custom_Vary_replaces_response_Vary (fresh policy_custom_vary) _ response_vary
           "Vary" "X" Hord Hdist eq_refl eq_refl eq_refl Hao).
Defined.

Lemma ModifyResponseHeaders_idempotent_cases_witness :
  let ord := [("Vary", "X")] in
  let once := ModifyResponseHeaders (fresh policy_custom_vary) ord response_vary in
  go.range_order (CustomResponseHeaders policy_custom_vary) ord
  /\ is_Some (CustomResponseHeaders policy_custom_vary !! "Vary")
  /\ ModifyResponseHeaders (fresh policy_custom_vary) ord once.2 = once.
Proof.
  intros ord once. destruct policy_custom_vary_order as [Hord _].
  assert (is_Some (CustomResponseHeaders policy_custom_vary !! "Vary")) as Hsome
    by (by exists "X").
  split; [exact Hord|]. split; [exact Hsome|].
  apply (ModifyResponseHeaders_idempotent_cases (fresh policy_custom_vary) ord ord
           response_vary Hord Hord (or_introl eq_refl)).
  right. right. exists "Vary". split; [exact Hsome | reflexivity].
Defined.

Lemma interleaved_preflight_is_forwarded_witness :
  let s := with_backend policy_reflect in
  let reqA := preflight_from "http://a" in
  preflight reqA
  /\ http.Get (http.req_Header get_plain) "Origin" = ""
  /\ next s = Some (backendHandler tt)
  /\ exists s' gB,
       run serve_nothing [true; false; true; false] [] s
         (AtEntry ∅ reqA) (AtEntry ∅ get_plain)
       = (s', Returned ∅ [NextServeHTTP (backendHandler tt) reqA], gB).
Proof.
  intros s reqA. pose proof preflight_from_a as Hp.
  split; [exact Hp|]. split; [reflexivity|]. split; [reflexivity|].
  exact (interleaved_preflight_is_forwarded serve_nothing s [] ∅ ∅ reqA get_plain
           (backendHandler tt) Hp eq_refl eq_refl).
Defined.

Example canonical_lower : textproto.CanonicalMIMEHeaderKey "x-custom-header" = "X-Custom-Header".
Proof. reflexivity. Qed.

Example canonical_space : textproto.CanonicalMIMEHeaderKey "x custom" = "x custom".
Proof. reflexivity. Qed.

Example itoa_0 : go.Itoa (go.int 0) = "0".
Proof. reflexivity. Qed.

Example itoa_neg : go.Itoa (go.int (-42)) = "-42".
Proof. reflexivity. Qed.

Example join_3 : go.Join ["GET"; "POST"; "PUT"] "," = "GET,POST,PUT".
Proof. reflexivity. Qed.
